(** * portfolio-hub: the single-page application of [main.js]

    A shallow embedding of the router ([SPARouter]), of the loading-text
    timer ([LoadingScreen.animateLoadingText]), of the testimonial carousel
    ([initTestimonialsCarousel]) and of the contact form validator
    ([initFormValidation]), with the properties of each proved below its
    definitions.

    Conventions.
    - Route names, element ids and message texts are [string]s; the values
      typed into form fields are sequences of UTF-16 code units
      ([jsstring]), because the regular expression and [trim] look at
      individual code units.
    - Code that mutates the document runs in a state monad whose result is
      a completion: a JavaScript exception does not undo the mutations made
      before it was thrown.
    - Timers are not run by a clock: a [setTimeout] or [setInterval]
      registers a task, and firing a task is a function of the model. *)

From Stdlib Require Import NArith ZArith Lia List Bool String Ascii.
From stdpp Require Import base option list gmap strings sets.

Local Open Scope string_scope.
Local Open Scope list_scope.

(** Closes a decidable closed goal by evaluating its decision procedure. *)
Ltac decide_by_computation :=
  apply (bool_decide_unpack _); vm_compute; exact I.

(** ** The JavaScript base: errors, completions, strings *)

Module JS.

(** The exceptions the modelled code can raise. *)
Inductive Error :=
| TypeError (what : string)
| RangeError (what : string)
| Rejected (what : string).

(** How a statement list ends. *)
Inductive Completion (A : Type) :=
| Normal (a : A)
| Throw (e : Error).
Arguments Normal {A} a.
Arguments Throw {A} e.

(** A computation over a mutable world [W]. The world is returned in both
    cases: what was written before a [Throw] stays written. *)
Definition M (W A : Type) : Type := W -> Completion A * W.

Definition ret {W A} (a : A) : M W A := fun w => (Normal a, w).

Definition bind {W A B} (m : M W A) (k : A -> M W B) : M W B :=
  fun w => match m w with
           | (Normal a, w') => k a w'
           | (Throw e, w') => (Throw e, w')
           end.

Definition throw {W A} (e : Error) : M W A := fun w => (Throw e, w).
Definition get {W} : M W W := fun w => (Normal w, w).
Definition modify {W} (f : W -> W) : M W unit := fun w => (Normal tt, f w).

(** [try { body } catch (e) { handler e } finally { final }]. *)
Definition try_catch_finally {W} (body : M W unit) (handler : Error -> M W unit)
    (final : M W unit) : M W unit :=
  fun w =>
    let r := match body w with
             | (Normal tt, w1) => (Normal tt, w1)
             | (Throw e, w1) => handler e w1
             end in
    match final (snd r) with
    | (Normal tt, w2) => (fst r, w2)
    | (Throw e, w2) => (Throw e, w2)
    end.

(** [forEach]: the callback runs on each element in order; an exception
    ends the loop. *)
Fixpoint for_each {W A} (f : A -> M W unit) (l : list A) : M W unit :=
  match l with
  | [] => ret tt
  | x :: l' => bind (f x) (fun _ => for_each f l')
  end.

Definition completed {A} (c : Completion A) : bool :=
  match c with Normal _ => true | Throw _ => false end.

(** The double-quote character, for the texts that contain it. *)
Definition quote : string := String (ascii_of_nat 34) EmptyString.

(** A JavaScript string value: its UTF-16 code units. *)
Definition jsstring := list N.

Definition unit_of_ascii (a : ascii) : N := N_of_ascii a.

(** The code units of a string literal written in ASCII. *)
Definition lit (s : string) : jsstring := map unit_of_ascii (list_ascii_of_string s).

(** ECMAScript [WhiteSpace] and [LineTerminator] code points: the set that
    [String.prototype.trim] strips and that [\s] matches. *)
Definition is_white_space (c : N) : bool :=
  (   (9 <=? c) && (c <=? 13)          (* TAB LF VT FF CR *)
   || (c =? 32)                        (* SP *)
   || (c =? 160)                       (* NBSP *)
   || (c =? 5760)                      (* U+1680 *)
   || ((8192 <=? c) && (c <=? 8202))   (* U+2000 .. U+200A *)
   || (c =? 8232) || (c =? 8233)       (* LS PS *)
   || (c =? 8239) || (c =? 8287)       (* U+202F U+205F *)
   || (c =? 12288)                     (* U+3000 *)
   || (c =? 65279))%N.                 (* U+FEFF *)

Fixpoint trim_start (s : jsstring) : jsstring :=
  match s with
  | c :: s' => if is_white_space c then trim_start s' else s
  | [] => []
  end.

Definition trim_end (s : jsstring) : jsstring := rev (trim_start (rev s)).

(** [String.prototype.trim]. *)
Definition trim (s : jsstring) : jsstring := trim_end (trim_start s).

End JS.

(** ** Regular expressions

    The fragment of the regular expression language that the form uses:
    character classes (possibly negated, with [\s]), concatenation,
    alternation and repetition, matched by Brzozowski derivatives. *)

Module Regex.

Inductive class_item :=
| CUnit (c : N)            (* a literal code unit *)
| CRange (lo hi : N)       (* lo-hi *)
| CSpace.                  (* \s *)

Inductive regex :=
| Void
| Eps
| Class (negated : bool) (items : list class_item)
| Cat (r1 r2 : regex)
| Alt (r1 r2 : regex)
| Star (r : regex).

(** [r+] *)
Definition Plus (r : regex) : regex := Cat r (Star r).
(** A literal code unit, as in [@] or [\.]. *)
Definition Lit (c : N) : regex := Class false [CUnit c].
(** Any code unit at all (the empty negated class). *)
Definition AnyUnit : regex := Class true [].

Definition item_matches (c : N) (i : class_item) : bool :=
  match i with
  | CUnit d => (c =? d)%N
  | CRange lo hi => ((lo <=? c) && (c <=? hi))%N
  | CSpace => JS.is_white_space c
  end.

Definition class_matches (negated : bool) (items : list class_item) (c : N) : bool :=
  xorb negated (existsb (item_matches c) items).

Fixpoint nullable (r : regex) : bool :=
  match r with
  | Void => false
  | Eps => true
  | Class _ _ => false
  | Cat r1 r2 => nullable r1 && nullable r2
  | Alt r1 r2 => nullable r1 || nullable r2
  | Star _ => true
  end.

Fixpoint deriv (c : N) (r : regex) : regex :=
  match r with
  | Void => Void
  | Eps => Void
  | Class n items => if class_matches n items c then Eps else Void
  | Cat r1 r2 =>
      if nullable r1 then Alt (Cat (deriv c r1) r2) (deriv c r2)
      else Cat (deriv c r1) r2
  | Alt r1 r2 => Alt (deriv c r1) (deriv c r2)
  | Star r1 => Cat (deriv c r1) (Star r1)
  end.

(** Does the whole of [s] match [r]? *)
Fixpoint matches (r : regex) (s : JS.jsstring) : bool :=
  match s with
  | [] => nullable r
  | c :: s' => matches (deriv c r) s'
  end.

(** A regular expression literal without flags: the body, and whether it
    opens with [^] and closes with [$]. *)
Record literal := {
  anchored_start : bool;
  body : regex;
  anchored_end : bool
}.

(** [RegExp.prototype.test]: some substring matches the body; an anchor
    pins that substring to the start or the end of the input. *)
Definition test (re : literal) (s : JS.jsstring) : bool :=
  matches
    (Cat (if anchored_start re then Eps else Star AnyUnit)
         (Cat (body re)
              (if anchored_end re then Eps else Star AnyUnit)))
    s.

(** The language of a regular expression, as a relation. *)
Inductive lang : regex -> JS.jsstring -> Prop :=
| lang_eps : lang Eps []
| lang_class n items c : class_matches n items c = true -> lang (Class n items) [c]
| lang_cat r1 r2 s1 s2 : lang r1 s1 -> lang r2 s2 -> lang (Cat r1 r2) (s1 ++ s2)
| lang_alt_l r1 r2 s : lang r1 s -> lang (Alt r1 r2) s
| lang_alt_r r1 r2 s : lang r2 s -> lang (Alt r1 r2) s
| lang_star_nil r : lang (Star r) []
| lang_star_app r s1 s2 : lang r s1 -> lang (Star r) s2 -> lang (Star r) (s1 ++ s2).

(** *** The derivative matcher decides the language *)

Lemma nullable_lang r : nullable r = true <-> lang r [].
Proof.
  split.
  - induction r as [| | n items | r1 IH1 r2 IH2 | r1 IH1 r2 IH2 | r IH];
      simpl; intros H; try discriminate.
    + constructor.
    + apply andb_true_iff in H as [H1 H2].
      change (@nil N) with (@nil N ++ @nil N). constructor; auto.
    + apply orb_true_iff in H as [H | H].
      * apply lang_alt_l; auto.
      * apply lang_alt_r; auto.
    + constructor.
  - intros H. remember (@nil N) as s eqn:Es.
    induction H as [| n items c Hc | r1 r2 s1 s2 H1 IH1 H2 IH2
                    | r1 r2 s H IH | r1 r2 s H IH | r | r s1 s2 H1 IH1 H2 IH2];
      simpl; auto; try discriminate.
    + apply app_eq_nil in Es as [-> ->]. rewrite IH1, IH2; auto.
    + rewrite IH; auto.
    + rewrite IH; auto. apply orb_true_r.
Qed.

Lemma deriv_sound c r : forall s, lang (deriv c r) s -> lang r (c :: s).
Proof.
  induction r as [| | n items | r1 IH1 r2 IH2 | r1 IH1 r2 IH2 | r IH];
    simpl; intros s H.
  - inversion H.
  - inversion H.
  - destruct (class_matches n items c) eqn:E; inversion H; subst.
    constructor; exact E.
  - destruct (nullable r1) eqn:E.
    + inversion H as [| | | ? ? ? HL | ? ? ? HR | |]; subst.
      * inversion HL as [| | ? ? s1 s2 Ha Hb | | | |]; subst.
        change (c :: s1 ++ s2) with ((c :: s1) ++ s2). constructor; auto.
      * change (c :: s) with ([] ++ c :: s). constructor; auto.
        apply nullable_lang; exact E.
    + inversion H as [| | ? ? s1 s2 Ha Hb | | | |]; subst.
      change (c :: s1 ++ s2) with ((c :: s1) ++ s2). constructor; auto.
  - inversion H; subst; [apply lang_alt_l | apply lang_alt_r]; auto.
  - inversion H as [| | ? ? s1 s2 Ha Hb | | | |]; subst.
    change (c :: s1 ++ s2) with ((c :: s1) ++ s2). apply lang_star_app; auto.
Qed.

Lemma deriv_complete r s' :
  lang r s' -> forall c s, s' = c :: s -> lang (deriv c r) s.
Proof.
  induction 1 as [| n items d Hd | r1 r2 s1 s2 H1 IH1 H2 IH2
                  | r1 r2 t H IH | r1 r2 t H IH | r | r s1 s2 H1 IH1 H2 IH2];
    intros c s E; simpl.
  - discriminate.
  - injection E as -> <-. rewrite Hd. constructor.
  - destruct s1 as [| a s1'].
    + simpl in E. subst s2.
      apply nullable_lang in H1. rewrite H1.
      apply lang_alt_r. apply IH2; reflexivity.
    + simpl in E. injection E as -> <-.
      assert (HC : lang (Cat (deriv c r1) r2) (s1' ++ s2))
        by (constructor; [apply IH1; reflexivity | exact H2]).
      destruct (nullable r1); [apply lang_alt_l |]; exact HC.
  - apply lang_alt_l; eauto.
  - apply lang_alt_r; eauto.
  - discriminate.
  - destruct s1 as [| a s1'].
    + simpl in E. apply (IH2 c s E).
    + simpl in E. injection E as -> <-.
      constructor; [apply IH1; reflexivity | exact H2].
Qed.

Lemma matches_lang r s : matches r s = true <-> lang r s.
Proof.
  revert r. induction s as [| c s IH]; intros r; simpl.
  - apply nullable_lang.
  - rewrite IH. split.
    + apply deriv_sound.
    + intros H. eapply deriv_complete; eauto.
Qed.

(** *** Repetitions of one character class *)

Lemma lang_star_class n items s :
  lang (Star (Class n items)) s <-> Forall (fun c => class_matches n items c = true) s.
Proof.
  split.
  - intros H. remember (Star (Class n items)) as r eqn:Er.
    induction H as [| | | | | r' | r' s1 s2 H1 IH1 H2 IH2]; try discriminate.
    + constructor.
    + injection Er as ->. inversion H1; subst. simpl.
      constructor; auto.
  - induction 1 as [| c s Hc Hs IH].
    + constructor.
    + change (c :: s) with ([c] ++ s). apply lang_star_app; auto.
      constructor; exact Hc.
Qed.

Lemma lang_plus_class n items s :
  lang (Plus (Class n items)) s <->
  s <> [] /\ Forall (fun c => class_matches n items c = true) s.
Proof.
  unfold Plus. split.
  - intros H. inversion H as [| | ? ? s1 s2 Ha Hb | | | |]; subst.
    inversion Ha; subst. simpl. split; [discriminate |].
    constructor; auto. apply lang_star_class; exact Hb.
  - intros [Hne Hall]. destruct s as [| c s]; [congruence |].
    inversion Hall; subst.
    change (c :: s) with ([c] ++ s). constructor.
    + constructor; assumption.
    + apply lang_star_class; assumption.
Qed.

Lemma lang_lit c s : lang (Lit c) s <-> s = [c].
Proof.
  unfold Lit. split.
  - intros H. inversion H as [| ? ? d Hd | | | | |]; subst.
    unfold class_matches in Hd. simpl in Hd.
    rewrite orb_false_r in Hd. apply N.eqb_eq in Hd. congruence.
  - intros ->. constructor. unfold class_matches. simpl.
    rewrite N.eqb_refl. reflexivity.
Qed.

Lemma lang_cat_inv r1 r2 s :
  lang (Cat r1 r2) s <-> exists s1 s2, s = s1 ++ s2 /\ lang r1 s1 /\ lang r2 s2.
Proof.
  split.
  - intros H. inversion H; subst. eauto.
  - intros (s1 & s2 & -> & H1 & H2). constructor; assumption.
Qed.

Lemma lang_eps_inv s : lang Eps s <-> s = [].
Proof.
  split.
  - intros H. inversion H. reflexivity.
  - intros ->. constructor.
Qed.

(** With both anchors, [test] is a match of the whole input. *)
Lemma test_anchored r s :
  test {| anchored_start := true; body := r; anchored_end := true |} s = true
  <-> lang r s.
Proof.
  unfold test. simpl. rewrite matches_lang.
  rewrite lang_cat_inv. split.
  - intros (s1 & s2 & -> & H1 & H2).
    apply lang_eps_inv in H1. subst s1.
    apply lang_cat_inv in H2 as (t1 & t2 & -> & Ht1 & Ht2).
    apply lang_eps_inv in Ht2. subst t2. simpl. rewrite app_nil_r. exact Ht1.
  - intros H. exists [], s. split; [reflexivity |]. split; [constructor |].
    apply lang_cat_inv. exists s, []. rewrite app_nil_r.
    repeat split; [exact H | constructor].
Qed.


End Regex.

(** ** The loading screen's text timer ([LoadingScreen]) *)

Module Loading.

(** The fields of a [LoadingScreen] that [animateLoadingText] uses, the
    [textContent] of the [.loader-text] element ([None] when the page has no
    such element), whether the interval is still registered, and the log of
    the texts the element was given, oldest first. *)
Record LoadingScreen := {
  loadingTexts : list string;
  currentTextIndex : nat;
  loaderText : option string;
  textInterval : bool;
  displayed : list string
}.

Definition loadingTexts_literal : list string :=
  [ "Loading Portfolio...";
    "Initializing Components...";
    "Setting up Navigation...";
    "Finalizing Experience...";
    "Ready!" ].

(** The constructor followed by [animateLoadingText]'s [setInterval]. *)
Definition construct (loader_text : option string) : LoadingScreen :=
  {| loadingTexts := loadingTexts_literal;
     currentTextIndex := 0;
     loaderText := loader_text;
     textInterval := true;
     displayed := [] |}.

(** One firing of the 600ms interval callback. *)
Definition text_tick : JS.M LoadingScreen unit :=
  fun s =>
    if (Z.of_nat (currentTextIndex s) <? Z.of_nat (length (loadingTexts s)) - 1)%Z then
      match loaderText s with
      | None => (JS.Throw (JS.TypeError "loaderText is null"), s)
      | Some _ =>
          let t := nth (currentTextIndex s) (loadingTexts s) "undefined" in
          (JS.Normal tt,
           {| loadingTexts := loadingTexts s;
              currentTextIndex := S (currentTextIndex s);
              loaderText := Some t;
              textInterval := textInterval s;
              displayed := displayed s ++ [t] |})
      end
    else
      (JS.Normal tt,
       {| loadingTexts := loadingTexts s;
          currentTextIndex := currentTextIndex s;
          loaderText := loaderText s;
          textInterval := false;
          displayed := displayed s |}).

(** The interval fires every 600ms for as long as it is registered; an
    exception in the callback does not unregister it. [run n] is the state
    after the time of [n] firings, and [firings n] counts those that took
    place. *)
Fixpoint run (n : nat) (s : LoadingScreen) : LoadingScreen :=
  match n with
  | 0 => s
  | S n' => if textInterval s then run n' (snd (text_tick s)) else s
  end.

Fixpoint firings (n : nat) (s : LoadingScreen) : nat :=
  match n with
  | 0 => 0
  | S n' => if textInterval s then S (firings n' (snd (text_tick s))) else 0
  end.

(** The time of the [k]-th firing, in milliseconds. *)
Definition firing_time (k : nat) : nat := 600 * k.

(** *** Properties *)

(** While the interval runs over a present element, [k] firings have shown
    the first [k] texts, as long as [k] stays below the last index. *)
Lemma run_displays_prefix (k : nat) (s : LoadingScreen) :
  textInterval s = true ->
  is_Some (loaderText s) ->
  currentTextIndex s + k < length (loadingTexts s) ->
  let s' := run k s in
  loadingTexts s' = loadingTexts s /\
  currentTextIndex s' = currentTextIndex s + k /\
  textInterval s' = true /\
  is_Some (loaderText s') /\
  displayed s' =
    displayed s ++ firstn k (skipn (currentTextIndex s) (loadingTexts s)).
Proof.
  revert s. induction k as [| k IH]; intros s Hint Htxt Hlt; simpl.
  - rewrite Nat.add_0_r, app_nil_r. auto.
  - rewrite Hint. unfold text_tick.
    destruct (Z.ltb_spec (Z.of_nat (currentTextIndex s))
                (Z.of_nat (length (loadingTexts s)) - 1)) as [Hc | Hc]; [| lia].
    destruct Htxt as [t0 Ht0]. rewrite Ht0. simpl.
    match goal with |- context [run k ?s1] => specialize (IH s1) end.
    simpl in IH.
    destruct IH as (H1 & H2 & H3 & H4 & H5); [exact Hint | eauto | lia |].
    repeat split; auto; [lia |].
    rewrite H5, <- app_assoc. f_equal.
    assert (Hi : currentTextIndex s < length (loadingTexts s)) by lia.
    clear - Hi. revert Hi.
    generalize (currentTextIndex s) as i. generalize (loadingTexts s) as l.
    induction l as [| x l IHl]; intros i Hi; simpl in *; [lia |].
    destruct i as [| i]; simpl; [reflexivity |].
    apply IHl. lia.
Qed.

Lemma run_stopped (n : nat) (s : LoadingScreen) :
  textInterval s = false -> run n s = s.
Proof. intros H. destruct n; simpl; [| rewrite H]; reflexivity. Qed.

Lemma run_add (a b : nat) (s : LoadingScreen) :
  run (a + b) s = run b (run a s).
Proof.
  revert s. induction a as [| a IH]; intros s; simpl; [reflexivity |].
  destruct (textInterval s) eqn:E; [apply IH |].
  symmetry. apply run_stopped. exact E.
Qed.

(** C5 (evaluation of the code): from construction, with the [.loader-text]
    element present, the interval callback fires five times. The first four
    firings show the first four texts in order; the fifth shows nothing and
    clears the interval, so the last entry of the list, "Ready!", is never
    displayed, however long one waits. *)
Theorem loading_text_last_entry_never_displayed (initial : string) (n : nat) :
  let s := run (5 + n) (construct (Some initial)) in
  displayed s = [ "Loading Portfolio..."; "Initializing Components...";
                  "Setting up Navigation..."; "Finalizing Experience..." ] /\
  ~ In "Ready!" (displayed s) /\
  loaderText s = Some "Finalizing Experience..." /\
  textInterval s = false /\
  firings (5 + n) (construct (Some initial)) = 5 /\
  length (displayed s) < length (loadingTexts s).
Proof.
  cbv zeta. rewrite run_add.
  assert (E : run 5 (construct (Some initial)) =
              {| loadingTexts := loadingTexts_literal;
                 currentTextIndex := 4;
                 loaderText := Some "Finalizing Experience...";
                 textInterval := false;
                 displayed := firstn 4 loadingTexts_literal |}) by reflexivity.
  rewrite E, run_stopped by reflexivity. simpl.
  repeat split; try lia.
  - intros [H | [H | [H | [H | []]]]]; discriminate.
  - destruct n; reflexivity.
Qed.

End Loading.

(** ** The testimonial carousel ([initTestimonialsCarousel]) *)

Module Carousel.

(** A JavaScript number as the carousel uses it: a slide index, or [NaN]
    (from [%] by a zero length). *)
Inductive num :=
| Num (n : nat)
| NaN.

Record Slide := { slideActive : bool; ariaHidden : bool }.
Record Dot := { dotActive : bool; ariaSelected : bool; tabindex : Z }.

(** The closure's variables and the two node lists it captured. *)
Record State := {
  slides : list Slide;
  dots : list Dot;
  currentSlide : num;
  autoAdvance : bool            (* an interval is registered *)
}.

Definition set_slides (f : list Slide -> list Slide) (s : State) : State :=
  {| slides := f (slides s); dots := dots s;
     currentSlide := currentSlide s; autoAdvance := autoAdvance s |}.

Definition set_dots (f : list Dot -> list Dot) (s : State) : State :=
  {| slides := slides s; dots := f (dots s);
     currentSlide := currentSlide s; autoAdvance := autoAdvance s |}.

Definition set_currentSlide (n : num) (s : State) : State :=
  {| slides := slides s; dots := dots s;
     currentSlide := n; autoAdvance := autoAdvance s |}.

Definition hidden_slide : Slide := {| slideActive := false; ariaHidden := true |}.
Definition shown_slide : Slide := {| slideActive := true; ariaHidden := false |}.
Definition idle_dot : Dot := {| dotActive := false; ariaSelected := false; tabindex := (-1)%Z |}.
Definition selected_dot : Dot := {| dotActive := true; ariaSelected := true; tabindex := 0%Z |}.

(** The body of [slides.forEach((slide, i) => ...)] in [showSlide]. *)
Definition reset_at (i : nat) : JS.M State unit :=
  JS.bind (JS.modify (set_slides (fun l => <[i := hidden_slide]> l))) (fun _ =>
  JS.bind JS.get (fun s =>
  match dots s !! i with
  | None => JS.throw (JS.TypeError "dots[i] is undefined")
  | Some _ => JS.modify (set_dots (fun l => <[i := idle_dot]> l))
  end)).

Definition showSlide (index : num) : JS.M State unit :=
  JS.bind JS.get (fun s0 =>
  JS.bind (JS.for_each reset_at (seq 0 (length (slides s0)))) (fun _ =>
  JS.bind JS.get (fun s =>
  match index with
  | NaN => JS.throw (JS.TypeError "slides[index] is undefined")
  | Num k =>
      match slides s !! k with
      | None => JS.throw (JS.TypeError "slides[index] is undefined")
      | Some _ =>
          JS.bind (JS.modify (set_slides (fun l => <[k := shown_slide]> l))) (fun _ =>
          match dots s !! k with
          | None => JS.throw (JS.TypeError "dots[index] is undefined")
          | Some _ => JS.modify (set_dots (fun l => <[k := selected_dot]> l))
          end)
      end
  end))).

(** [(currentSlide + 1) % slides.length] *)
Definition next_index (cur : num) (len : nat) : num :=
  match cur, len with
  | Num i, S _ => Num ((i + 1) mod len)
  | _, _ => NaN
  end.

(** One firing of the 5000ms interval callback. *)
Definition auto_advance : JS.M State unit :=
  JS.bind JS.get (fun s =>
  let n := next_index (currentSlide s) (length (slides s)) in
  JS.bind (JS.modify (set_currentSlide n)) (fun _ => showSlide n)).

(** What the initialiser does after wiring the dots: [showSlide(0)] and
    [startAutoAdvance()]. *)
Definition init (sl : list Slide) (ds : list Dot) : JS.Completion unit * State :=
  JS.bind (showSlide (Num 0))
    (fun _ => JS.modify (fun s =>
       {| slides := slides s; dots := dots s;
          currentSlide := currentSlide s; autoAdvance := true |}))
    {| slides := sl; dots := ds; currentSlide := Num 0; autoAdvance := false |}.

(** The state after [n] firings of the interval. An exception thrown by
    the callback leaves the interval registered. *)
Fixpoint advances (n : nat) (s : State) : State :=
  match n with
  | 0 => s
  | S n' => advances n' (snd (auto_advance s))
  end.

(** *** Properties *)

(** The slide at index [k] is the one marked active, and among the dots of
    the slides so is dot [k]. *)
Definition showing (k : nat) (s : State) : Prop :=
  (forall i x, slides s !! i = Some x -> slideActive x = bool_decide (i = k)) /\
  (forall i d, i < length (slides s) -> dots s !! i = Some d ->
               dotActive d = bool_decide (i = k)).


(** [showSlide] rewrites entries of the two lists in place: it never changes
    their lengths, nor the index variable. *)
Definition same_shape (s s' : State) : Prop :=
  length (slides s') = length (slides s) /\
  length (dots s') = length (dots s) /\
  currentSlide s' = currentSlide s /\
  autoAdvance s' = autoAdvance s.

Lemma same_shape_refl s : same_shape s s.
Proof. repeat split. Qed.

Lemma same_shape_trans s1 s2 s3 :
  same_shape s1 s2 -> same_shape s2 s3 -> same_shape s1 s3.
Proof. unfold same_shape. intros (?&?&?&?) (?&?&?&?). repeat split; congruence. Qed.

Lemma reset_at_shape i s : same_shape s (snd (reset_at i s)).
Proof.
  unfold reset_at, JS.bind, JS.modify, JS.get, JS.throw. simpl.
  destruct (dots _ !! i); simpl; repeat split; simpl;
    rewrite ?length_insert; reflexivity.
Qed.

Lemma for_each_reset_shape l s : same_shape s (snd (JS.for_each reset_at l s)).
Proof.
  revert s. induction l as [| i l IH]; intros s; simpl.
  - apply same_shape_refl.
  - unfold JS.bind. pose proof (reset_at_shape i s) as H.
    destruct (reset_at i s) as [[[] | e] s1]; simpl in *.
    + eapply same_shape_trans; [exact H | apply IH].
    + exact H.
Qed.

Lemma showSlide_shape index s : same_shape s (snd (showSlide index s)).
Proof.
  unfold showSlide, JS.bind at 1 2, JS.get at 1. simpl.
  pose proof (for_each_reset_shape (seq 0 (length (slides s))) s) as H.
  destruct (JS.for_each reset_at _ s) as [[[] | e] s1]; simpl in *; [| exact H].
  unfold JS.bind, JS.get, JS.throw, JS.modify. simpl.
  destruct index as [k |]; simpl; [| exact H].
  destruct (slides s1 !! k); simpl; [| exact H].
  destruct (dots s1 !! k); simpl;
    (eapply same_shape_trans; [exact H |]);
    repeat split; simpl; rewrite ?length_insert; reflexivity.
Qed.

Lemma auto_advance_index s :
  length (slides (snd (auto_advance s))) = length (slides s) /\
  currentSlide (snd (auto_advance s)) = next_index (currentSlide s) (length (slides s)).
Proof.
  unfold auto_advance, JS.bind at 1 2, JS.get, JS.modify. simpl.
  match goal with |- context [showSlide ?n ?s1] =>
    destruct (showSlide_shape n s1) as (H1 & _ & H3 & _) end.
  simpl in *. split; assumption.
Qed.

Lemma advances_from (n i : nat) (s : State) :
  i < length (slides s) ->
  currentSlide s = Num i ->
  length (slides (advances n s)) = length (slides s) /\
  currentSlide (advances n s) = Num ((i + n) mod length (slides s)).
Proof.
  revert i s. induction n as [| n IH]; intros i s Hi Hc; simpl.
  - rewrite Nat.add_0_r, Nat.mod_small by exact Hi. auto.
  - destruct (auto_advance_index s) as [Hl Hn].
    rewrite Hc in Hn. unfold next_index in Hn.
    destruct (length (slides s)) as [| m] eqn:El; [lia |].
    destruct (IH ((i + 1) mod S m) (snd (auto_advance s))) as [Hl' Hc'].
    + rewrite Hl. apply Nat.mod_upper_bound. lia.
    + exact Hn.
    + rewrite Hl', Hc', Hl. split; [reflexivity |]. f_equal.
      rewrite Nat.Div0.add_mod_idemp_l. f_equal. lia.
Qed.

(** C6: with at least one slide and the index at 0, the index after [n]
    firings of the auto-advance interval is [n mod slideCount]; each firing
    maps [i] to [(i + 1) mod slideCount]. *)

(** *** The slide that is shown *)

Lemma reset_at_ok (i : nat) (s : State) :
  i < length (dots s) ->
  reset_at i s
  = (JS.Normal tt,
     set_dots (fun l => <[i := idle_dot]> l)
       (set_slides (fun l => <[i := hidden_slide]> l) s)).
Proof.
  intros Hi. unfold reset_at, JS.bind, JS.get, JS.modify, JS.throw.
  cbn [dots set_slides].
  destruct (lookup_lt_is_Some_2 (dots s) i Hi) as [d Hd]. rewrite Hd. reflexivity.
Qed.

(** The loop of [showSlide] over the indices [a .. a + m - 1], when every
    slide has its dot. *)
Lemma for_each_reset_ok (m : nat) :
  forall (a : nat) (s : State),
    a + m <= length (slides s) ->
    a + m <= length (dots s) ->
    exists s',
      JS.for_each reset_at (seq a m) s = (JS.Normal tt, s') /\
      same_shape s s' /\
      (forall j, a <= j < a + m ->
                 slides s' !! j = Some hidden_slide /\ dots s' !! j = Some idle_dot) /\
      (forall j, j < a ->
                 slides s' !! j = slides s !! j /\ dots s' !! j = dots s !! j).
Proof.
  induction m as [| m IH]; intros a s Hs Hd.
  - exists s. cbn. split; [reflexivity |]. split; [apply same_shape_refl |].
    split; [intros j Hj; lia | auto].
  - cbn [seq JS.for_each]. unfold JS.bind.
    rewrite reset_at_ok by lia.
    set (s1 := set_dots _ _).
    assert (Hl1 : length (slides s1) = length (slides s))
      by (subst s1; cbn; apply length_insert).
    assert (Hd1 : length (dots s1) = length (dots s))
      by (subst s1; cbn; apply length_insert).
    destruct (IH (S a) s1) as (s' & E & Hsh & Hin & Hout); [lia | lia |].
    exists s'. split; [exact E |]. split.
    { eapply same_shape_trans; [| exact Hsh].
      subst s1. repeat split; cbn; rewrite ?length_insert; reflexivity. }
    split.
    + intros j Hj. destruct (decide (j = a)) as [-> | Hne].
      * destruct (Hout a) as [H1 H2]; [lia |]. rewrite H1, H2. subst s1. cbn.
        split; apply list_lookup_insert_eq; lia.
      * apply Hin. lia.
    + intros j Hj. destruct (Hout j) as [H1 H2]; [lia |]. rewrite H1, H2.
      subst s1. cbn. split; apply list_lookup_insert_ne; lia.
Qed.

(** [showSlide(k)] on a carousel where every slide has its dot: it
    completes, and slide [k] and dot [k] are the marked ones. *)
Lemma showSlide_ok (k : nat) (s : State) :
  k < length (slides s) ->
  length (slides s) <= length (dots s) ->
  exists s',
    showSlide (Num k) s = (JS.Normal tt, s') /\
    same_shape s s' /\
    showing k s'.
Proof.
  intros Hk Hd.
  destruct (for_each_reset_ok (length (slides s)) 0 s) as (s1 & E & Hsh & Hin & _);
    [lia | lia |].
  destruct Hsh as (Hl1 & Hd1 & Hc1 & Ha1).
  unfold showSlide, JS.bind at 1 2, JS.get at 1. rewrite E.
  unfold JS.bind at 1, JS.get at 1.
  destruct (lookup_lt_is_Some_2 (slides s1) k) as [x Hx]; [lia |]. rewrite Hx.
  unfold JS.bind, JS.modify.
  destruct (lookup_lt_is_Some_2 (dots s1) k) as [d Hdk]; [lia |]. rewrite Hdk.
  eexists. split; [reflexivity |].
  split.
  { repeat split; cbn; rewrite ?length_insert; assumption. }
  split; cbn.
  - intros i y Hy. destruct (decide (i = k)) as [-> | Hne].
    + rewrite list_lookup_insert_eq in Hy by lia. injection Hy as <-.
      rewrite bool_decide_true by reflexivity. reflexivity.
    + rewrite list_lookup_insert_ne in Hy by congruence.
      assert (Hi : i < length (slides s1)) by (eapply lookup_lt_Some; exact Hy).
      destruct (Hin i) as [H1 _]; [lia |]. rewrite H1 in Hy. injection Hy as <-.
      rewrite bool_decide_false by exact Hne. reflexivity.
  - rewrite length_insert. intros i y Hi Hy.
    destruct (decide (i = k)) as [-> | Hne].
    + rewrite list_lookup_insert_eq in Hy by lia. injection Hy as <-.
      rewrite bool_decide_true by reflexivity. reflexivity.
    + rewrite list_lookup_insert_ne in Hy by congruence.
      destruct (Hin i) as [_ H2]; [lia |]. rewrite H2 in Hy. injection Hy as <-.
      rewrite bool_decide_false by exact Hne. reflexivity.
Qed.

Lemma auto_advance_ok (i : nat) (s : State) :
  0 < length (slides s) ->
  length (slides s) <= length (dots s) ->
  currentSlide s = Num i ->
  exists s',
    auto_advance s = (JS.Normal tt, s') /\
    length (slides s') = length (slides s) /\
    length (dots s') = length (dots s) /\
    currentSlide s' = Num ((i + 1) mod length (slides s)) /\
    showing ((i + 1) mod length (slides s)) s'.
Proof.
  intros Hl Hd Hc.
  unfold auto_advance, JS.bind at 1 2, JS.get at 1, JS.modify at 1.
  rewrite Hc. unfold next_index.
  destruct (length (slides s)) as [| m] eqn:El; [lia |].
  set (k := (i + 1) mod S m).
  assert (Hk : k < S m) by (apply Nat.mod_upper_bound; lia).
  destruct (showSlide_ok k (set_currentSlide (Num k) s)) as (s' & E & Hsh & Hshow).
  { cbn. rewrite El. exact Hk. }
  { cbn. rewrite El. exact Hd. }
  destruct Hsh as (H1 & H2 & H3 & _). cbn in H1, H2, H3.
  exists s'. rewrite E. rewrite H1, H2, H3, El. auto.
Qed.

Lemma advances_shown (n : nat) :
  forall (i : nat) (s : State),
    i < length (slides s) ->
    length (slides s) <= length (dots s) ->
    currentSlide s = Num i ->
    showing i s ->
    currentSlide (advances n s) = Num ((i + n) mod length (slides s)) /\
    showing ((i + n) mod length (slides s)) (advances n s) /\
    length (slides (advances n s)) = length (slides s) /\
    length (dots (advances n s)) = length (dots s).
Proof.
  induction n as [| n IH]; intros i s Hi Hd Hc Hs.
  - cbn. rewrite Nat.add_0_r, Nat.mod_small by exact Hi. auto.
  - cbn [advances].
    destruct (auto_advance_ok i s) as (s' & E & Hl & Hdl & Hc' & Hs');
      [lia | exact Hd | exact Hc |].
    rewrite E. cbn [snd].
    destruct (IH ((i + 1) mod length (slides s)) s') as (R1 & R2 & R3 & R4).
    + rewrite Hl. apply Nat.mod_upper_bound. lia.
    + rewrite Hl, Hdl. exact Hd.
    + exact Hc'.
    + exact Hs'.
    + rewrite Hl in R1, R2, R3. rewrite Hdl in R4.
      rewrite Nat.Div0.add_mod_idemp_l in R1, R2.
      replace (i + 1 + n) with (i + S n) in R1, R2 by lia. auto.
Qed.

Lemma init_shows_first (sl : list Slide) (ds : list Dot) :
  0 < length sl ->
  length sl <= length ds ->
  exists s,
    init sl ds = (JS.Normal tt, s) /\
    length (slides s) = length sl /\ length (dots s) = length ds /\
    currentSlide s = Num 0 /\ autoAdvance s = true /\ showing 0 s.
Proof.
  intros Hl Hd. unfold init, JS.bind at 1.
  destruct (showSlide_ok 0 {| slides := sl; dots := ds; currentSlide := Num 0;
                               autoAdvance := false |} Hl Hd)
    as (s' & E & (H1 & H2 & H3 & _) & Hs).
  rewrite E. unfold JS.modify. eexists. split; [reflexivity |].
  cbn in *. auto 10.
Qed.

(** C6: from the state the initialiser leaves (or any state that shows
    slide 0 with the index at 0), when there is at least one slide and every
    slide has its dot, after [n] firings of the auto-advance interval the
    index is [n mod slideCount] and the slide at that index is the one
    marked active, with its dot; the next firing completes and maps the
    index [i] to [(i + 1) mod slideCount]. *)
Theorem carousel_index_after_advances (n : nat) (s : State) :
  0 < length (slides s) ->
  length (slides s) <= length (dots s) ->
  currentSlide s = Num 0 ->
  showing 0 s ->
  currentSlide (advances n s) = Num (n mod length (slides s)) /\
  showing (n mod length (slides s)) (advances n s) /\
  length (slides (advances n s)) = length (slides s) /\
  fst (auto_advance (advances n s)) = JS.Normal tt /\
  currentSlide (snd (auto_advance (advances n s))) =
    Num ((n mod length (slides s) + 1) mod length (slides s)).
Proof.
  intros Hlen Hd H0 Hs.
  destruct (advances_shown n 0 s Hlen Hd H0 Hs) as (Hc & Hsh & Hl & Hdl).
  cbn [Nat.add] in Hc, Hsh.
  split; [exact Hc |]. split; [exact Hsh |]. split; [exact Hl |].
  destruct (auto_advance_ok (n mod length (slides s)) (advances n s))
    as (s' & E & _ & _ & Hc' & _).
  - rewrite Hl. exact Hlen.
  - rewrite Hl, Hdl. exact Hd.
  - exact Hc.
  - rewrite E. rewrite Hl in Hc'. split; [reflexivity | exact Hc'].
Qed.

(** C6 on a carousel of three slides as the initialiser leaves it, after
    seven firings: slide 1 is the active one. *)
Lemma carousel_index_after_advances_witness :
  let s := snd (init [hidden_slide; shown_slide; hidden_slide]
                     [idle_dot; idle_dot; selected_dot]) in
  0 < length (slides s) /\
  length (slides s) <= length (dots s) /\
  currentSlide s = Num 0 /\
  showing 0 s /\
  currentSlide (advances 7 s) = Num 1 /\
  showing 1 (advances 7 s).
Proof.
  cbv zeta.
  set (s := snd (init [hidden_slide; shown_slide; hidden_slide]
                      [idle_dot; idle_dot; selected_dot])).
  assert (H1 : 0 < length (slides s)) by (vm_compute; lia).
  assert (H2 : length (slides s) <= length (dots s)) by (vm_compute; lia).
  assert (H3 : currentSlide s = Num 0) by reflexivity.
  assert (H4 : showing 0 s).
  { split.
    - intros [| [| [| i]]] x Hx; vm_compute in Hx; try discriminate;
        injection Hx as <-; reflexivity.
    - intros [| [| [| i]]] d Hi Hx; vm_compute in Hx; try discriminate;
        injection Hx as <-; reflexivity. }
  repeat (split; [assumption |]).
  destruct (carousel_index_after_advances 7 s H1 H2 H3 H4) as (Hc & Hs & _).
  split; [exact Hc | exact Hs].
Defined.

(** *** Manual selection, and carousels that cannot start *)



(** The loop of [showSlide] when the dots run out at index [length dots]:
    it throws there, having hidden the slides up to that index. *)
Lemma for_each_reset_fails (m : nat) :
  forall (a : nat) (s : State),
    a <= length (dots s) ->
    length (dots s) < a + m ->
    a + m <= length (slides s) ->
    exists s',
      JS.for_each reset_at (seq a m) s
      = (JS.Throw (JS.TypeError "dots[i] is undefined"), s') /\
      same_shape s s' /\
      (forall j, a <= j <= length (dots s) -> slides s' !! j = Some hidden_slide).
Proof.
  induction m as [| m IH]; intros a s Ha Hd Hs; [lia |].
  cbn [seq JS.for_each]. unfold JS.bind.
  destruct (decide (a = length (dots s))) as [-> | Hne].
  - unfold reset_at, JS.bind, JS.get, JS.modify, JS.throw. cbn [dots set_slides].
    rewrite (lookup_ge_None_2 (dots s) (length (dots s))) by lia.
    eexists. split; [reflexivity |]. split.
    + repeat split; cbn; rewrite ?length_insert; reflexivity.
    + intros j Hj. assert (j = length (dots s)) as -> by lia. cbn.
      apply list_lookup_insert_eq. lia.
  - rewrite reset_at_ok by lia.
    set (s1 := set_dots _ _).
    assert (Hd1 : length (dots s1) = length (dots s))
      by (subst s1; cbn; apply length_insert).
    assert (Hl1 : length (slides s1) = length (slides s))
      by (subst s1; cbn; apply length_insert).
    destruct (IH (S a) s1) as (s' & E & Hsh & Hin); [lia | lia | lia |].
    exists s'. split; [exact E |]. split.
    { eapply same_shape_trans; [| exact Hsh].
      subst s1. repeat split; cbn; rewrite ?length_insert; reflexivity. }
    intros j Hj. destruct (decide (j = a)) as [-> | Hja].
    + (* slide [a] was hidden by the first round and is not touched again *)
      assert (Hmono : forall l (s2 : State),
                (forall i, i ∈ l -> a < i) ->
                slides (snd (JS.for_each reset_at l s2)) !! a = slides s2 !! a).
      { induction l as [| i l IHl]; intros s2 Hl; [reflexivity |].
        cbn [JS.for_each]. unfold JS.bind.
        assert (Hi : a < i) by (apply Hl; apply elem_of_cons; auto).
        assert (H1 : slides (snd (reset_at i s2)) !! a = slides s2 !! a).
        { unfold reset_at, JS.bind, JS.get, JS.modify, JS.throw. cbn.
          destruct (dots s2 !! i); cbn; apply list_lookup_insert_ne; lia. }
        destruct (reset_at i s2) as [[[] | e] s3]; cbn in *.
        - rewrite IHl; [exact H1 |]. intros i' Hi'. apply Hl.
          apply elem_of_cons. auto.
        - exact H1. }
      pose proof (Hmono (seq (S a) m) s1) as Hm.
      rewrite E in Hm. cbn [snd] in Hm. rewrite Hm.
      * subst s1. cbn. apply list_lookup_insert_eq. lia.
      * intros i Hi. apply elem_of_seq in Hi. lia.
    + rewrite Hd1 in Hin. apply Hin. lia.
Qed.

(** Without slides, or with fewer dots than slides, the initialiser throws
    in its first [showSlide] and never reaches [startAutoAdvance]: no
    interval is registered, and with too few dots the slides up to the
    first one without a dot are left unmarked. *)
Theorem carousel_without_markup_never_starts (sl : list Slide) (ds : list Dot) :
  sl = [] \/ length ds < length sl ->
  exists e s,
    init sl ds = (JS.Throw (JS.TypeError e), s) /\
    autoAdvance s = false /\
    currentSlide s = Num 0 /\
    (forall j x, j <= length ds -> slides s !! j = Some x -> slideActive x = false).
Proof.
  intros [-> | Hlt].
  - exists "slides[index] is undefined". eexists. split; [reflexivity |].
    cbn. repeat split. intros j x _ Hx. rewrite lookup_nil in Hx. discriminate.
  - set (s0 := {| slides := sl; dots := ds; currentSlide := Num 0;
                  autoAdvance := false |}).
    destruct (for_each_reset_fails (length (slides s0)) 0 s0) as (s' & E & Hsh & Hin);
      [cbn; lia | cbn; lia | cbn; lia |].
    destruct Hsh as (_ & _ & Hc & Ha).
    exists "dots[i] is undefined", s'. split.
    + unfold init, JS.bind at 1, showSlide, JS.bind at 1 2, JS.get at 1.
      fold s0. rewrite E. reflexivity.
    + split; [exact Ha |]. split; [exact Hc |].
      intros j x Hj Hx. rewrite (Hin j) in Hx by (cbn; lia).
      injection Hx as <-. reflexivity.
Qed.

(** Three slides with two dots. *)
Lemma carousel_without_markup_never_starts_witness :
  length [idle_dot; idle_dot] < length [shown_slide; shown_slide; shown_slide] /\
  exists e s,
    init [shown_slide; shown_slide; shown_slide] [idle_dot; idle_dot]
      = (JS.Throw (JS.TypeError e), s) /\
    autoAdvance s = false.
Proof.
  assert (H : length [idle_dot; idle_dot]
              < length [shown_slide; shown_slide; shown_slide]) by (cbn; lia).
  split; [exact H |].
  destruct (carousel_without_markup_never_starts
              [shown_slide; shown_slide; shown_slide] [idle_dot; idle_dot]
              (or_intror H)) as (e & s & E & Ha & _).
  exists e, s. split; [exact E | exact Ha].
Defined.

End Carousel.

(** ** The router ([SPARouter]) *)

Module Router.

(** *** Plain objects used as maps

    [this.routes] and the [titles] table are object literals: reading
    [o[k]] finds the own property [k] or, failing that, what
    [Object.prototype] has under that name. *)
Inductive Lookup (A : Type) :=
| Own (a : A)
| Inherited (key : string)
| Undefined.
Arguments Own {A} a.
Arguments Inherited {A} key.
Arguments Undefined {A}.

Definition object_prototype_keys : list string :=
  [ "constructor"; "hasOwnProperty"; "isPrototypeOf"; "propertyIsEnumerable";
    "toLocaleString"; "toString"; "valueOf"; "__proto__";
    "__defineGetter__"; "__defineSetter__"; "__lookupGetter__"; "__lookupSetter__" ].

Definition get_property {A} (o : gmap string A) (k : string) : Lookup A :=
  match o !! k with
  | Some a => Own a
  | None => if bool_decide (k ∈ object_prototype_keys) then Inherited k else Undefined
  end.

(** Route objects and the inherited functions are truthy, [undefined] is
    not. *)
Definition truthy {A} (l : Lookup A) : bool :=
  match l with Undefined => false | _ => true end.

(** *** The state *)

(** [{ element, path }]; the element is named by its id. *)
Record RouteObj := { element : string; path : string }.

Record Router := {
  routes : gmap string RouteObj;
  currentRoute : string;
  isLoading : bool
}.

(** A [.nav-link] or [.mobile-nav-link]: its [data-route] attribute and
    whether it has the class [active]. *)
Record NavLink := { linkRoute : option string; linkActive : bool }.

Record RouteDot := {
  dotRoute : option string;
  dotActive : bool;
  dotSelected : string;         (* aria-selected *)
  dotTabindex : string
}.

(** [#loader]: whether it has the class [hidden], and the [animation] style
    of its [.loader-progress-bar] ([None]: there is no such child). *)
Record Loader := { loaderHidden : bool; progressBar : option string }.

(** [#mobileMenuBtn]: the class list of its [<i>] child ([None]: no such
    child) and its [aria-expanded] attribute. *)
Record MenuButton := { iconClasses : option (gset string); ariaExpanded : option string }.

(** [document.title]: a text, or the string conversion of a built-in found
    on [Object.prototype], whose text depends on the engine. *)
Inductive DocTitle :=
| TitleText (t : string)
| TitleBuiltin (key : string).

(** The document as far as the router reads and writes it. An element that
    [getElementById] does not find is [None] (or, for the page containers,
    absent from [elementIds]). *)
Record Page := {
  elementIds : gset string;        (* ids of the elements of the document *)
  activeClass : gset string;       (* page elements whose class list has [active] *)
  navLinks : list NavLink;
  routeDots : list RouteDot;
  loader : option Loader;
  appContainer : option bool;      (* has the class [loaded] *)
  mobileMenu : option bool;        (* has the class [active] *)
  mobileMenuBtn : option MenuButton;
  title : DocTitle
}.

Inductive Level := LogError | LogWarn.

(** The callbacks the router hands to [setTimeout]. *)
Inductive Task :=
| TransitionTask (route : string) (pushState : bool)   (* loadRoute, 100ms *)
| HideLoaderTask                                       (* hideLoader, 3000ms *)
| LoadedTask.                                          (* hideLoader, 500ms *)

Record Browser := {
  pushed : list string;            (* the routes of the [history.pushState] calls *)
  locationHash : string;           (* [window.location.hash] *)
  console : list (Level * string);
  scrolls : nat;                   (* calls of [window.scrollTo({ top: 0 })] *)
  timers : list (nat * Task)       (* pending timeouts: delay and callback *)
}.

Record World := { router : Router; page : Page; browser : Browser }.

(** Field updates. *)
Definition on_router (f : Router -> Router) (w : World) : World :=
  {| router := f (router w); page := page w; browser := browser w |}.
Definition on_page (f : Page -> Page) (w : World) : World :=
  {| router := router w; page := f (page w); browser := browser w |}.
Definition on_browser (f : Browser -> Browser) (w : World) : World :=
  {| router := router w; page := page w; browser := f (browser w) |}.

Definition set_routes (f : gmap string RouteObj -> gmap string RouteObj) (r : Router) : Router :=
  {| routes := f (routes r); currentRoute := currentRoute r; isLoading := isLoading r |}.
Definition set_currentRoute (c : string) (r : Router) : Router :=
  {| routes := routes r; currentRoute := c; isLoading := isLoading r |}.
Definition set_isLoading (b : bool) (r : Router) : Router :=
  {| routes := routes r; currentRoute := currentRoute r; isLoading := b |}.

Definition set_activeClass (f : gset string -> gset string) (p : Page) : Page :=
  {| elementIds := elementIds p; activeClass := f (activeClass p);
     navLinks := navLinks p; routeDots := routeDots p; loader := loader p;
     appContainer := appContainer p; mobileMenu := mobileMenu p;
     mobileMenuBtn := mobileMenuBtn p; title := title p |}.
Definition set_nav (ls : list NavLink) (ds : list RouteDot) (p : Page) : Page :=
  {| elementIds := elementIds p; activeClass := activeClass p;
     navLinks := ls; routeDots := ds; loader := loader p;
     appContainer := appContainer p; mobileMenu := mobileMenu p;
     mobileMenuBtn := mobileMenuBtn p; title := title p |}.
Definition set_loader (l : option Loader) (p : Page) : Page :=
  {| elementIds := elementIds p; activeClass := activeClass p;
     navLinks := navLinks p; routeDots := routeDots p; loader := l;
     appContainer := appContainer p; mobileMenu := mobileMenu p;
     mobileMenuBtn := mobileMenuBtn p; title := title p |}.
Definition set_appContainer (a : option bool) (p : Page) : Page :=
  {| elementIds := elementIds p; activeClass := activeClass p;
     navLinks := navLinks p; routeDots := routeDots p; loader := loader p;
     appContainer := a; mobileMenu := mobileMenu p;
     mobileMenuBtn := mobileMenuBtn p; title := title p |}.
Definition set_mobileMenu (m : option bool) (p : Page) : Page :=
  {| elementIds := elementIds p; activeClass := activeClass p;
     navLinks := navLinks p; routeDots := routeDots p; loader := loader p;
     appContainer := appContainer p; mobileMenu := m;
     mobileMenuBtn := mobileMenuBtn p; title := title p |}.
Definition set_mobileMenuBtn (b : option MenuButton) (p : Page) : Page :=
  {| elementIds := elementIds p; activeClass := activeClass p;
     navLinks := navLinks p; routeDots := routeDots p; loader := loader p;
     appContainer := appContainer p; mobileMenu := mobileMenu p;
     mobileMenuBtn := b; title := title p |}.
Definition set_title (t : DocTitle) (p : Page) : Page :=
  {| elementIds := elementIds p; activeClass := activeClass p;
     navLinks := navLinks p; routeDots := routeDots p; loader := loader p;
     appContainer := appContainer p; mobileMenu := mobileMenu p;
     mobileMenuBtn := mobileMenuBtn p; title := t |}.

Definition push_entry (route : string) (b : Browser) : Browser :=
  {| pushed := pushed b ++ [route]; locationHash := "#" +:+ route;
     console := console b; scrolls := scrolls b; timers := timers b |}.
Definition log_line (l : Level) (msg : string) (b : Browser) : Browser :=
  {| pushed := pushed b; locationHash := locationHash b;
     console := console b ++ [(l, msg)]; scrolls := scrolls b; timers := timers b |}.
Definition count_scroll (b : Browser) : Browser :=
  {| pushed := pushed b; locationHash := locationHash b;
     console := console b; scrolls := S (scrolls b); timers := timers b |}.
Definition set_timers (f : list (nat * Task) -> list (nat * Task)) (b : Browser) : Browser :=
  {| pushed := pushed b; locationHash := locationHash b;
     console := console b; scrolls := scrolls b; timers := f (timers b) |}.

(** *** Small steps on the world *)

Definition setTimeout (t : Task) (delay : nat) : JS.M World unit :=
  JS.modify (on_browser (set_timers (fun l => l ++ [(delay, t)]))).

Definition console_log (l : Level) (msg : string) : JS.M World unit :=
  JS.modify (on_browser (log_line l msg)).

(** [window.scrollTo({ top: 0, behavior: 'smooth' })] *)
Definition scrollToTop : JS.M World unit :=
  JS.modify (on_browser count_scroll).

Definition quote : string := JS.quote.

(** The page containers: the elements of the registered routes. *)
Definition page_containers (r : Router) : gset string :=
  map_img (element <$> routes r).

(** The page containers that carry the class [active]. *)
Definition active_containers (w : World) : gset string :=
  activeClass (page w) ∩ page_containers (router w).

(** *** The methods of [SPARouter] *)

(** [registerRoute(path, elementId)]. [init] is its only caller, with seven
    literal paths; the key [__proto__], for which the assignment would not
    create an own property, is not among them. *)
Definition registerRoute (path elementId : string) : JS.M World unit :=
  JS.bind JS.get (fun w =>
  if bool_decide (elementId ∈ elementIds (page w)) then
    JS.modify (on_router (set_routes (fun m =>
      <[path := {| element := elementId; path := path |}]> m)))
  else
    console_log LogError
      ("Element with ID " +:+ quote +:+ elementId +:+ quote +:+
       " not found for route " +:+ quote +:+ path +:+ quote +:+ ".")).

(** [classList.replace(old, new)] *)
Definition class_replace (old new : string) (cls : gset string) : gset string :=
  if bool_decide (old ∈ cls) then (cls ∖ {[old]}) ∪ {[new]} else cls.

Definition closeMobileMenu : JS.M World unit :=
  JS.bind JS.get (fun w =>
  match mobileMenu (page w) with
  | None => JS.throw (JS.TypeError "mobileMenu is null")
  | Some false => JS.ret tt
  | Some true =>
      JS.bind (JS.modify (on_page (set_mobileMenu (Some false)))) (fun _ =>
      match mobileMenuBtn (page w) with
      | None => JS.throw (JS.TypeError "mobileMenuBtn is null")
      | Some b =>
          match iconClasses b with
          | None => JS.throw (JS.TypeError "mobileMenuBtn has no icon")
          | Some cls =>
              JS.modify (on_page (set_mobileMenuBtn (Some
                {| iconClasses := Some (class_replace "ri-close-line" "ri-menu-line" cls);
                   ariaExpanded := Some "false" |})))
          end
      end)
  end).

Definition showLoader : JS.M World unit :=
  JS.bind (JS.modify (on_router (set_isLoading true))) (fun _ =>
  JS.bind JS.get (fun w =>
  match loader (page w) with
  | None => JS.throw (JS.TypeError "loader is null")
  | Some l =>
      JS.bind (JS.modify (on_page (set_loader (Some
        {| loaderHidden := false; progressBar := progressBar l |})))) (fun _ =>
      match appContainer (page w) with
      | None => JS.throw (JS.TypeError "appContainer is null")
      | Some _ =>
          JS.bind (JS.modify (on_page (set_appContainer (Some false)))) (fun _ =>
          match progressBar l with
          | None => JS.throw (JS.TypeError "progressBar is null")
          | Some _ =>
              JS.modify (on_page (set_loader (Some
                {| loaderHidden := false;
                   progressBar := Some "progress 3s ease-in-out" |})))
          end)
      end)
  end)).

Definition hideLoader : JS.M World unit := setTimeout HideLoaderTask 3000.

Definition nav_link_update (activeRoute : string) (l : NavLink) : NavLink :=
  {| linkRoute := linkRoute l;
     linkActive := bool_decide (linkRoute l = Some activeRoute) |}.

Definition route_dot_update (activeRoute : string) (d : RouteDot) : RouteDot :=
  if bool_decide (dotRoute d = Some activeRoute) then
    {| dotRoute := dotRoute d; dotActive := true;
       dotSelected := "true"; dotTabindex := "0" |}
  else
    {| dotRoute := dotRoute d; dotActive := false;
       dotSelected := "false"; dotTabindex := "-1" |}.

Definition updateNavigation (activeRoute : string) : JS.M World unit :=
  JS.modify (on_page (fun p =>
    set_nav (nav_link_update activeRoute <$> navLinks p)
            (route_dot_update activeRoute <$> routeDots p) p)).

Definition titles : gmap string string :=
  list_to_map
    [ ("home", "Divyanshu Pandey - Professional Portfolio");
      ("about", "About - Divyanshu Pandey");
      ("skills", "Skills - Divyanshu Pandey");
      ("projects", "Projects - Divyanshu Pandey");
      ("blog", "Blog - Divyanshu Pandey");
      ("education", "Education - Divyanshu Pandey");
      ("contact", "Contact - Divyanshu Pandey") ].

(** [document.title = titles[route] || titles.home] *)
Definition updatePageTitle (route : string) : JS.M World unit :=
  JS.modify (on_page (set_title
    match get_property titles route with
    | Own t => TitleText t
    | Inherited k => TitleBuiltin k
    | Undefined => TitleText "Divyanshu Pandey - Professional Portfolio"
    end)).

(** [loadRoute], over the function it calls for the transition. *)
Definition loadRoute_with (transition : string -> bool -> JS.M World unit)
    (route : string) (pushState showLoading : bool) : JS.M World unit :=
  if showLoading then
    JS.bind showLoader (fun _ => setTimeout (TransitionTask route pushState) 100)
  else
    transition route pushState.

(** [performRouteTransition]. It calls [loadRoute], which calls it back:
    [depth] is the number of nested calls the call stack still has room for,
    and running out of it is the engine's [RangeError]. *)
Fixpoint performRouteTransition (depth : nat) (route : string) (pushState : bool)
    : JS.M World unit :=
  match depth with
  | 0 => JS.throw (JS.RangeError "Maximum call stack size exceeded")
  | S depth' =>
      JS.bind JS.get (fun w =>
      JS.bind (JS.modify (on_page (set_activeClass
                 (fun a => a ∖ page_containers (router w))))) (fun _ =>
      match get_property (routes (router w)) route with
      | Own obj =>
          JS.bind (JS.modify (on_page (set_activeClass
                     (fun a => a ∪ {[element obj]})))) (fun _ =>
          JS.bind (JS.modify (on_router (set_currentRoute route))) (fun _ =>
          JS.bind (if pushState
                   then JS.modify (on_browser (push_entry route))
                   else JS.ret tt) (fun _ =>
          JS.bind (updateNavigation route) (fun _ =>
          JS.bind closeMobileMenu (fun _ =>
          JS.bind scrollToTop (fun _ =>
          updatePageTitle route))))))
      | Inherited k =>
          JS.throw (JS.TypeError "this.routes[route].element is undefined")
      | Undefined =>
          JS.bind (console_log LogWarn
                     ("Route " +:+ quote +:+ route +:+ quote +:+
                      " not found. Redirecting to home.")) (fun _ =>
          loadRoute_with (performRouteTransition depth') "home" true false)
      end))
  end.

Definition loadRoute (depth : nat) : string -> bool -> bool -> JS.M World unit :=
  loadRoute_with (performRouteTransition depth).

Definition navigateTo (depth : nat) (route : string) : JS.M World unit :=
  JS.bind JS.get (fun w =>
  let r := router w in
  if truthy (get_property (routes r) route)
     && negb (isLoading r)
     && negb (bool_decide (currentRoute r = route))
  then loadRoute depth route true true
  else if bool_decide (currentRoute r = route)
  then JS.bind scrollToTop (fun _ => closeMobileMenu)
  else JS.ret tt).

(** The [state] of a [popstate] event: [null], or an object whose [route]
    property is a string or is missing. *)
Inductive HistoryState :=
| StateNull
| StateObject (route : option string).

(** [e.state?.route || 'home'] *)
Definition popstate_route (st : HistoryState) : string :=
  match st with
  | StateObject (Some r) => if bool_decide (r = "") then "home" else r
  | _ => "home"
  end.

(** The [popstate] listener. *)
Definition on_popstate (depth : nat) (st : HistoryState) : JS.M World unit :=
  loadRoute depth (popstate_route st) false false.

(** The click listener of a [[data-route]] link. *)
Definition on_link_click (depth : nat) (data_route : string) : JS.M World unit :=
  navigateTo depth data_route.

(** [hash.slice(1)] *)
Definition slice1 (s : string) : string :=
  match s with
  | EmptyString => EmptyString
  | String _ rest => rest
  end.

(** The seven [registerRoute] calls of [init], in order. *)
Definition registrations : list (string * string) :=
  [ ("home", "home-page"); ("about", "about-page"); ("skills", "skills-page");
    ("projects", "projects-page"); ("blog", "blog-page");
    ("education", "education-page"); ("contact", "contact-page") ].

(** [init]; the listeners it installs are [on_link_click] and
    [on_popstate]. *)
Definition init (depth : nat) : JS.M World unit :=
  JS.bind (JS.for_each (fun pe => registerRoute pe.1 pe.2) registrations) (fun _ =>
  JS.bind JS.get (fun w =>
  let initialHash := slice1 (locationHash (browser w)) in
  loadRoute depth
    (if truthy (get_property (routes (router w)) initialHash)
     then initialHash else currentRoute (router w))
    false false)).

(** [new SPARouter()] on a given document and browser state. *)
Definition construct (depth : nat) (p : Page) (b : Browser) : JS.Completion unit * World :=
  init depth
    {| router := {| routes := ∅; currentRoute := "home"; isLoading := false |};
       page := p; browser := b |}.

(** Running a timer callback. *)
Definition run_task (depth : nat) (t : Task) : JS.M World unit :=
  match t with
  | TransitionTask route pushState =>
      JS.bind (performRouteTransition depth route pushState) (fun _ => hideLoader)
  | HideLoaderTask =>
      JS.bind JS.get (fun w =>
      match loader (page w) with
      | None => JS.throw (JS.TypeError "loader is null")
      | Some l =>
          JS.bind (JS.modify (on_page (set_loader (Some
            {| loaderHidden := true; progressBar := progressBar l |})))) (fun _ =>
          setTimeout LoadedTask 500)
      end)
  | LoadedTask =>
      JS.bind JS.get (fun w =>
      match appContainer (page w) with
      | None => JS.throw (JS.TypeError "appContainer is null")
      | Some _ =>
          JS.bind (JS.modify (on_page (set_appContainer (Some true)))) (fun _ =>
          JS.modify (on_router (set_isLoading false)))
      end)
  end.

(** The timer at position [k] of the pending list comes due: it leaves the
    list and its callback runs. *)
Definition fire (depth : nat) (k : nat) : JS.M World unit :=
  JS.bind JS.get (fun w =>
  match timers (browser w) !! k with
  | None => JS.ret tt
  | Some (_, t) =>
      JS.bind (JS.modify (on_browser (set_timers (fun l => delete k l)))) (fun _ =>
      run_task depth t)
  end).

(** *** Auxiliary definitions for the statements *)

(** The registry holds nothing but routes that [init] registers, each with
    the element [init] names for it. *)
Definition registered_by_init (m : gmap string RouteObj) : Prop :=
  map_Forall (fun p o => (p, element o) ∈ registrations) m.

(** [closeMobileMenu] finds the elements it dereferences. *)
Definition menu_ready (p : Page) : bool :=
  match mobileMenu p with
  | None => false
  | Some false => true
  | Some true =>
      match mobileMenuBtn p with
      | Some b => bool_decide (is_Some (iconClasses b))
      | None => false
      end
  end.

(** What [closeMobileMenu] leaves of the page when it completes. *)
Definition closed_menu (p : Page) : Page :=
  match mobileMenu p, mobileMenuBtn p with
  | Some true, Some b =>
      set_mobileMenuBtn (Some
        {| iconClasses := class_replace "ri-close-line" "ri-menu-line" <$> iconClasses b;
           ariaExpanded := Some "false" |})
        (set_mobileMenu (Some false) p)
  | _, _ => p
  end.

(** The world after a transition to the registered route [route]. *)
Definition activated (route : string) (obj : RouteObj) (pushState : bool) (w : World) : World :=
  let w1 := on_page (set_activeClass (fun a =>
              (a ∖ page_containers (router w)) ∪ {[element obj]})) w in
  let w2 := on_router (set_currentRoute route) w1 in
  let w3 := if pushState then on_browser (push_entry route) w2 else w2 in
  let w4 := on_page (fun p =>
              set_nav (nav_link_update route <$> navLinks p)
                      (route_dot_update route <$> routeDots p) p) w3 in
  let w5 := on_page closed_menu w4 in
  let w6 := on_browser count_scroll w5 in
  on_page (set_title
    match get_property titles route with
    | Own t => TitleText t
    | Inherited k => TitleBuiltin k
    | Undefined => TitleText "Divyanshu Pandey - Professional Portfolio"
    end) w6.

(** The registry after the [registerRoute] calls listed in [l], on a
    document whose element ids are [ids]. *)
Definition registered (ids : gset string) (l : list (string * string))
    (m : gmap string RouteObj) : gmap string RouteObj :=
  foldl (fun acc pe =>
           if bool_decide (pe.2 ∈ ids)
           then <[pe.1 := {| element := pe.2; path := pe.1 |}]> acc
           else acc) m l.
Arguments registered : simpl never.

(** The warning of the fall-back branch. *)
Definition not_found_warning (route : string) : Level * string :=
  (LogWarn, "Route " +:+ quote +:+ route +:+ quote +:+ " not found. Redirecting to home.").

(** A document with the seven pages, the loader and a closed mobile menu,
    opened without a fragment; the concrete world of the examples. *)
Definition sample_page : Page :=
  {| elementIds :=
       list_to_set [ "home-page"; "about-page"; "skills-page"; "projects-page";
                     "blog-page"; "education-page"; "contact-page" ];
     activeClass := {["home-page"]};
     navLinks := [ {| linkRoute := Some "home"; linkActive := true |};
                   {| linkRoute := Some "about"; linkActive := false |};
                   {| linkRoute := Some "contact"; linkActive := false |} ];
     routeDots := [ {| dotRoute := Some "home"; dotActive := true;
                       dotSelected := "true"; dotTabindex := "0" |};
                    {| dotRoute := Some "about"; dotActive := false;
                       dotSelected := "false"; dotTabindex := "-1" |} ];
     loader := Some {| loaderHidden := true; progressBar := Some "progress 3s ease-in-out" |};
     appContainer := Some true;
     mobileMenu := Some false;
     mobileMenuBtn := Some {| iconClasses := Some {["ri-menu-line"]};
                              ariaExpanded := Some "false" |};
     title := TitleText "Portfolio" |}.

Definition sample_browser : Browser :=
  {| pushed := []; locationHash := ""; console := []; scrolls := 0; timers := [] |}.

(** The world once [new SPARouter()] has returned on the sample document. *)
Definition loaded_world : World := snd (construct 16 sample_page sample_browser).

(** The same after a click on the "about" link and the 100ms timer. *)
Definition about_world : World :=
  snd (fire 16 0 (snd (on_link_click 16 "about" loaded_world))).

(** The same once the navigation to "about" is over: the 3000ms and the
    500ms timers of [hideLoader] have fired, no transition is in progress
    and nothing is pending. *)
Definition settled_about_world : World :=
  snd (fire 16 0 (snd (fire 16 0 about_world))).

(** The sample document opened at [#gallery]. *)
Definition gallery_browser : Browser :=
  {| pushed := []; locationHash := "#gallery"; console := [];
     scrolls := 0; timers := [] |}.

(** *** Properties *)

Lemma get_property_own {A} (m : gmap string A) k a :
  m !! k = Some a -> get_property m k = Own a.
Proof. unfold get_property. intros ->. reflexivity. Qed.

Lemma get_property_undefined {A} (m : gmap string A) k :
  get_property m k = Undefined -> m !! k = None /\ k ∉ object_prototype_keys.
Proof.
  unfold get_property. destruct (m !! k); [discriminate |].
  case_bool_decide; [discriminate | auto].
Qed.

Lemma closeMobileMenu_ready (w : World) :
  menu_ready (page w) = true ->
  closeMobileMenu w = (JS.Normal tt, on_page closed_menu w).
Proof.
  destruct w as [r p b]. destruct p as [ids act nl rd lo app mm mb ti].
  unfold menu_ready, closeMobileMenu, closed_menu, JS.bind, JS.get, JS.modify, JS.throw, JS.ret.
  simpl. intros H.
  destruct mm as [[] |]; try discriminate; [| reflexivity].
  destruct mb as [[[cls |] ae] |]; simpl in *; try discriminate; reflexivity.
Qed.

(** Whatever happens in [closeMobileMenu], it touches the menu only. *)
Lemma closeMobileMenu_frame (w : World) :
  let w' := snd (closeMobileMenu w) in
  router w' = router w /\ browser w' = browser w /\
  activeClass (page w') = activeClass (page w) /\
  navLinks (page w') = navLinks (page w) /\
  routeDots (page w') = routeDots (page w) /\
  title (page w') = title (page w) /\
  loader (page w') = loader (page w) /\
  appContainer (page w') = appContainer (page w).
Proof.
  destruct w as [r p b]. destruct p as [ids act nl rd lo app mm mb ti].
  unfold closeMobileMenu, JS.bind, JS.get, JS.modify, JS.throw, JS.ret. simpl.
  destruct mm as [[] |]; simpl; auto 10.
  destruct mb as [[[cls |] ae] |]; simpl; auto 10.
Qed.

Lemma transition_registered depth route obj pushState (w : World) :
  routes (router w) !! route = Some obj ->
  menu_ready (page w) = true ->
  performRouteTransition (S depth) route pushState w
  = (JS.Normal tt, activated route obj pushState w).
Proof.
  intros Hr Hm. simpl.
  unfold JS.bind at 1 2, JS.get at 1, JS.modify at 1.
  rewrite (get_property_own _ _ _ Hr).
  unfold JS.bind at 1 2 3, JS.modify at 1 2.
  set (w2 := on_router (set_currentRoute route) _).
  assert (Hpush :
    (if pushState then JS.modify (on_browser (push_entry route)) else JS.ret tt) w2
    = (JS.Normal tt, if pushState then on_browser (push_entry route) w2 else w2))
    by (destruct pushState; reflexivity).
  rewrite Hpush. clear Hpush.
  unfold JS.bind at 1 2, updateNavigation, JS.modify at 1.
  rewrite closeMobileMenu_ready.
  - unfold JS.bind, scrollToTop, updatePageTitle, JS.modify, activated.
    subst w2. destruct w as [r p b]. destruct pushState; reflexivity.
  - subst w2. destruct w as [r p b]. destruct pushState; exact Hm.
Qed.

Lemma element_in_containers (r : Router) route obj :
  routes r !! route = Some obj -> element obj ∈ page_containers r.
Proof.
  intros H. unfold page_containers. apply elem_of_map_img.
  exists route. rewrite lookup_fmap, H. reflexivity.
Qed.

Lemma registrations_functional p q e :
  (p, e) ∈ registrations -> (q, e) ∈ registrations -> p = q.
Proof.
  unfold registrations. rewrite !elem_of_cons, !elem_of_nil.
  intros H1 H2.
  destruct H1 as [H1 | [H1 | [H1 | [H1 | [H1 | [H1 | [H1 | []]]]]]]];
    destruct H2 as [H2 | [H2 | [H2 | [H2 | [H2 | [H2 | [H2 | []]]]]]]];
    congruence.
Qed.

(** Distinct routes of an [init]-built registry have distinct elements. *)
Lemma registered_by_init_injective (m : gmap string RouteObj) p q o1 o2 :
  registered_by_init m ->
  m !! p = Some o1 -> m !! q = Some o2 -> element o1 = element o2 -> p = q.
Proof.
  intros H H1 H2 E.
  apply (registrations_functional p q (element o1)).
  - exact (H p o1 H1).
  - rewrite E. exact (H q o2 H2).
Qed.

Lemma activated_router route obj pushState w :
  router (activated route obj pushState w) = set_currentRoute route (router w).
Proof. destruct w as [r p b]. destruct pushState; reflexivity. Qed.

Lemma activated_activeClass route obj pushState w :
  activeClass (page (activated route obj pushState w))
  = (activeClass (page w) ∖ page_containers (router w)) ∪ {[element obj]}.
Proof.
  destruct w as [r p b]. destruct p as [ids act nl rd lo app mm mb ti].
  unfold activated, closed_menu. simpl.
  destruct pushState; simpl; destruct mm as [[] |]; simpl;
    try destruct mb as [[] |]; reflexivity.
Qed.

Lemma activated_pushed route obj pushState w :
  pushed (browser (activated route obj pushState w))
  = if pushState then pushed (browser w) ++ [route] else pushed (browser w).
Proof. destruct w as [r p b]. destruct pushState; reflexivity. Qed.

Lemma activated_console route obj pushState w :
  console (browser (activated route obj pushState w)) = console (browser w).
Proof. destruct w as [r p b]. destruct pushState; reflexivity. Qed.

Lemma activated_active_containers route obj pushState w :
  routes (router w) !! route = Some obj ->
  active_containers (activated route obj pushState w) = {[element obj]}.
Proof.
  intros H. unfold active_containers.
  rewrite activated_activeClass, activated_router.
  change (page_containers (set_currentRoute route (router w)))
    with (page_containers (router w)).
  pose proof (element_in_containers _ _ _ H) as Hin.
  apply set_eq. intros x.
  rewrite elem_of_intersection, elem_of_union, elem_of_difference, elem_of_singleton.
  split; [intros [[[_ Hx] | Hx] Hc]; [contradiction | exact Hx] |].
  intros ->. auto.
Qed.

(** C1: in a world whose registry was built by [init], a transition to a
    registered route [r] completes and leaves exactly one page container
    with the class [active], the one of [r]; the container of every other
    registered route is without it. The world is arbitrary otherwise, so
    this holds for every navigation after the initial load. *)
Theorem transition_activates_exactly_one
    (depth : nat) (r : string) (obj : RouteObj) (pushState : bool) (w : World) :
  registered_by_init (routes (router w)) ->
  routes (router w) !! r = Some obj ->
  menu_ready (page w) = true ->
  exists w',
    performRouteTransition (S depth) r pushState w = (JS.Normal tt, w') /\
    routes (router w') = routes (router w) /\
    currentRoute (router w') = r /\
    active_containers w' = {[element obj]} /\
    size (active_containers w') = 1 /\
    forall r' obj', r' <> r -> routes (router w') !! r' = Some obj' ->
                    element obj' ∉ activeClass (page w').
Proof.
  intros Hinit Hr Hm. exists (activated r obj pushState w).
  split; [apply transition_registered; assumption |].
  rewrite !activated_router.
  split; [reflexivity |]. split; [reflexivity |].
  rewrite (activated_active_containers _ _ _ _ Hr).
  split; [reflexivity |]. split; [apply size_singleton |].
  intros r' obj' Hne Hr' Hin.
  rewrite activated_activeClass in Hin.
  apply elem_of_union in Hin as [Hin | Hin].
  - apply elem_of_difference in Hin as [_ Hout].
    apply Hout. eapply element_in_containers; eassumption.
  - apply elem_of_singleton in Hin.
    apply Hne. eapply registered_by_init_injective; eassumption.
Qed.

Lemma navigateTo_current depth r (w : World) :
  currentRoute (router w) = r ->
  navigateTo depth r w = closeMobileMenu (on_browser count_scroll w).
Proof.
  intros Hc. unfold navigateTo, JS.bind at 1, JS.get at 1. cbv zeta.
  rewrite (bool_decide_true _ Hc), andb_false_r. reflexivity.
Qed.

(** C8: [navigateTo] of the route that is already current pushes no history
    entry and changes neither the router's fields nor the active page
    containers; the title, the link highlighting, the console and the
    pending timers stay as they are too. It scrolls to the top once and,
    where the menu elements exist, completes with the mobile menu closed. *)
Theorem navigateTo_current_route (depth : nat) (r : string) (w : World) :
  currentRoute (router w) = r ->
  let w' := snd (navigateTo depth r w) in
  pushed (browser w') = pushed (browser w) /\
  locationHash (browser w') = locationHash (browser w) /\
  router w' = router w /\
  activeClass (page w') = activeClass (page w) /\
  active_containers w' = active_containers w /\
  title (page w') = title (page w) /\
  navLinks (page w') = navLinks (page w) /\
  routeDots (page w') = routeDots (page w) /\
  console (browser w') = console (browser w) /\
  timers (browser w') = timers (browser w) /\
  scrolls (browser w') = S (scrolls (browser w)) /\
  (menu_ready (page w) = true ->
   fst (navigateTo depth r w) = JS.Normal tt /\ mobileMenu (page w') = Some false).
Proof.
  intros Hc. rewrite (navigateTo_current depth r w Hc). cbv zeta.
  set (w1 := on_browser count_scroll w).
  pose proof (closeMobileMenu_frame w1) as F. cbv zeta in F.
  destruct F as (Fr & Fb & Fa & Fn & Fd & Ft & _).
  unfold active_containers. rewrite Fr, Fb, Fa, Fn, Fd, Ft.
  do 11 (split; [reflexivity |]).
  intros Hm. rewrite (closeMobileMenu_ready w1 Hm).
  split; [reflexivity |].
  subst w1. destruct w as [ro p b]. destruct p as [ids act nl rd lo app mm mb ti].
  unfold menu_ready, closed_menu in *. simpl in *.
  destruct mm as [[] |]; try discriminate; [| reflexivity].
  destruct mb as [[] |]; try discriminate; reflexivity.
Qed.

(** An unregistered name that is not inherited either is ignored by
    [navigateTo], unless it is the current route. *)
Lemma navigateTo_undefined_ignored depth u (w : World) :
  get_property (routes (router w)) u = Undefined ->
  currentRoute (router w) <> u ->
  navigateTo depth u w = (JS.Normal tt, w).
Proof.
  intros Hu Hc. unfold navigateTo, JS.bind, JS.get. cbv zeta.
  rewrite Hu. simpl. rewrite (bool_decide_false _ Hc). reflexivity.
Qed.

Lemma get_property_none {A} (m : gmap string A) k :
  m !! k = None -> k ∉ object_prototype_keys -> get_property m k = Undefined.
Proof.
  intros H1 H2. unfold get_property. rewrite H1.
  rewrite (bool_decide_false _ H2). reflexivity.
Qed.

Lemma activated_after_clear route obj pushState (w : World) :
  activated route obj pushState
    (on_page (set_activeClass (fun a => a ∖ page_containers (router w))) w)
  = activated route obj pushState w.
Proof.
  destruct w as [r p b]. destruct p as [ids act nl rd ld ac mm mb ti].
  assert (E : act ∖ page_containers r ∖ page_containers r ∪ {[element obj]}
              = act ∖ page_containers r ∪ {[element obj]}).
  { apply set_eq. intros x.
    rewrite !elem_of_union, !elem_of_difference. tauto. }
  unfold activated, on_page, on_router, on_browser, set_activeClass.
  destruct pushState; simpl; rewrite E; reflexivity.
Qed.

(** The fall-back: a transition to a name with no property at all warns
    and activates home, with a history entry. *)
Lemma transition_undefined depth u home pushState (w : World) :
  get_property (routes (router w)) u = Undefined ->
  routes (router w) !! "home" = Some home ->
  menu_ready (page w) = true ->
  performRouteTransition (S (S depth)) u pushState w
  = (JS.Normal tt,
     activated "home" home true (on_browser (log_line LogWarn (not_found_warning u).2) w)).
Proof.
  intros Hu Hh Hm.
  change (performRouteTransition (S (S depth)) u pushState w) with
    (JS.bind JS.get (fun w0 =>
      JS.bind (JS.modify (on_page (set_activeClass
                 (fun a => a ∖ page_containers (router w0))))) (fun _ =>
      match get_property (routes (router w0)) u with
      | Own obj =>
          JS.bind (JS.modify (on_page (set_activeClass
                     (fun a => a ∪ {[element obj]})))) (fun _ =>
          JS.bind (JS.modify (on_router (set_currentRoute u))) (fun _ =>
          JS.bind (if pushState
                   then JS.modify (on_browser (push_entry u))
                   else JS.ret tt) (fun _ =>
          JS.bind (updateNavigation u) (fun _ =>
          JS.bind closeMobileMenu (fun _ =>
          JS.bind scrollToTop (fun _ =>
          updatePageTitle u))))))
      | Inherited k =>
          JS.throw (JS.TypeError "this.routes[route].element is undefined")
      | Undefined =>
          JS.bind (console_log LogWarn (not_found_warning u).2) (fun _ =>
          loadRoute_with (performRouteTransition (S depth)) "home" true false)
      end)) w).
  unfold JS.bind at 1 2, JS.get at 1, JS.modify at 1.
  rewrite Hu.
  unfold JS.bind at 1, console_log, JS.modify at 1, loadRoute_with.
  rewrite (transition_registered depth "home" home true) by assumption.
  f_equal.
  exact (activated_after_clear "home" home true
           (on_browser (log_line LogWarn (not_found_warning u).2) w)).
Qed.

Lemma register_all ids (l : list (string * string)) (w : World) :
  elementIds (page w) = ids ->
  exists w',
    JS.for_each (fun pe => registerRoute pe.1 pe.2) l w = (JS.Normal tt, w') /\
    router w' = set_routes (registered ids l) (router w) /\
    page w' = page w /\
    pushed (browser w') = pushed (browser w) /\
    locationHash (browser w') = locationHash (browser w) /\
    (forall msg, (LogWarn, msg) ∈ console (browser w') ->
                 (LogWarn, msg) ∈ console (browser w)).
Proof.
  revert w. induction l as [| [pa el] l IH]; intros w Hids.
  - exists w. destruct w as [[ro cu lo] p b]. simpl. auto 10.
  - simpl. unfold JS.bind at 1. unfold registerRoute at 1.
    unfold JS.bind at 1, JS.get at 1. simpl. rewrite Hids.
    case_bool_decide as Hel.
    + unfold JS.modify at 1.
      match goal with |- context [JS.for_each _ l ?w1] =>
        destruct (IH w1 Hids) as (w' & E & Hr & Hp & Hpu & Hh & Hc) end.
      exists w'. rewrite E. split; [reflexivity |].
      rewrite Hr, Hp, Hpu, Hh.
      destruct w as [[ro cu lo] p b]. unfold set_routes, registered. simpl in *.
      rewrite (bool_decide_true _ Hel). auto 10.
    + unfold console_log, JS.modify at 1.
      match goal with |- context [JS.for_each _ l ?w1] =>
        destruct (IH w1 Hids) as (w' & E & Hr & Hp & Hpu & Hh & Hc) end.
      exists w'. rewrite E. split; [reflexivity |].
      rewrite Hr, Hp, Hpu, Hh.
      destruct w as [[ro cu lo] p b]. unfold set_routes, registered. simpl in *.
      rewrite (bool_decide_false _ Hel).
      repeat split; try reflexivity.
      intros msg Hin. specialize (Hc msg Hin).
      apply elem_of_app in Hc as [Hc | Hc]; [exact Hc |].
      apply list_elem_of_singleton in Hc. discriminate.
Qed.

Lemma registered_home ids :
  "home-page" ∈ ids ->
  registered ids registrations ∅ !! "home"
  = Some {| element := "home-page"; path := "home" |}.
Proof.
  intros H. unfold registered, registrations. simpl.
  rewrite (bool_decide_true _ H).
  repeat case_bool_decide; simplify_map_eq; reflexivity.
Qed.

Lemma registered_preserves (P : string -> RouteObj -> Prop) ids l m :
  map_Forall P m ->
  (forall pa el, (pa, el) ∈ l -> P pa {| element := el; path := pa |}) ->
  map_Forall P (registered ids l m).
Proof.
  revert m. induction l as [| [pa el] l IH]; intros m Hm Hl; simpl; [exact Hm |].
  apply IH.
  - case_bool_decide; [| exact Hm].
    apply map_Forall_insert_2; [| exact Hm].
    apply Hl. apply elem_of_cons. left. reflexivity.
  - intros pa' el' Hin. apply Hl. apply elem_of_cons. right. exact Hin.
Qed.

(** What [init] registers satisfies [registered_by_init]. *)
Lemma registered_is_by_init ids :
  registered_by_init (registered ids registrations ∅).
Proof.
  apply registered_preserves.
  - apply map_Forall_empty.
  - intros pa el Hin. exact Hin.
Qed.

Lemma construct_unknown_hash depth u (p : Page) (b : Browser) :
  u ∉ object_prototype_keys ->
  locationHash b = "#" +:+ u ->
  registered (elementIds p) registrations ∅ !! u = None ->
  "home-page" ∈ elementIds p ->
  menu_ready p = true ->
  exists w',
    construct (S depth) p b = (JS.Normal tt, w') /\
    currentRoute (router w') = "home" /\
    active_containers w' = {["home-page"]} /\
    pushed (browser w') = pushed b /\
    (forall msg, (LogWarn, msg) ∈ console (browser w') -> (LogWarn, msg) ∈ console b).
Proof.
  intros Hk Hh Hu Hhome Hm. unfold construct, init.
  set (w0 := {| router := {| routes := ∅; currentRoute := "home"; isLoading := false |};
                page := p; browser := b |}).
  destruct (register_all (elementIds p) registrations w0 eq_refl)
    as (w1 & E & Hr & Hp & Hpu & Hlh & Hc).
  unfold JS.bind at 1. rewrite E.
  unfold JS.bind at 1, JS.get at 1. cbv zeta.
  rewrite Hlh, Hr. simpl locationHash. rewrite Hh. simpl slice1.
  simpl routes. simpl currentRoute. change ("" +:+ u) with u.
  rewrite (get_property_none _ _ Hu Hk). simpl truthy. cbv iota.
  unfold loadRoute, loadRoute_with.
  pose proof (registered_home _ Hhome) as Hreg.
  assert (Hr1 : routes (router w1) !! "home"
                = Some {| element := "home-page"; path := "home" |})
    by (rewrite Hr; exact Hreg).
  assert (Hm1 : menu_ready (page w1) = true) by (rewrite Hp; exact Hm).
  rewrite (transition_registered depth "home" _ false w1 Hr1 Hm1).
  eexists. split; [reflexivity |].
  rewrite activated_router, (activated_active_containers _ _ _ _ Hr1),
    activated_pushed, activated_console.
  repeat split; auto.
Qed.

(** C2, as the code has it: a name [u] that is neither registered nor
    inherited from [Object.prototype] is ignored by [navigateTo] (the current
    route stays); carried by a [popstate] it makes home the one active route,
    with one console warning; as the initial hash it makes home the one
    active route with no warning. The last two need the home route to be
    registered and the menu elements to exist. *)
Theorem unregistered_route_falls_back (depth : nat) (u : string) :
  u ∉ object_prototype_keys ->
  (forall w : World,
     routes (router w) !! u = None ->
     currentRoute (router w) <> u ->
     navigateTo depth u w = (JS.Normal tt, w)) /\
  (forall (w : World) (home : RouteObj),
     routes (router w) !! u = None ->
     u <> "" ->
     routes (router w) !! "home" = Some home ->
     menu_ready (page w) = true ->
     exists w',
       on_popstate (S (S depth)) (StateObject (Some u)) w = (JS.Normal tt, w') /\
       currentRoute (router w') = "home" /\
       active_containers w' = {[element home]} /\
       console (browser w') = console (browser w) ++ [not_found_warning u]) /\
  (forall (p : Page) (b : Browser),
     locationHash b = "#" +:+ u ->
     registered (elementIds p) registrations ∅ !! u = None ->
     "home-page" ∈ elementIds p ->
     menu_ready p = true ->
     exists w',
       construct (S depth) p b = (JS.Normal tt, w') /\
       currentRoute (router w') = "home" /\
       active_containers w' = {["home-page"]} /\
       (forall msg, (LogWarn, msg) ∈ console (browser w') ->
                    (LogWarn, msg) ∈ console b)).
Proof.
  intros Hk. split; [| split].
  - intros w Hu Hc. apply navigateTo_undefined_ignored; [| exact Hc].
    apply get_property_none; assumption.
  - intros w home Hu Hne Hh Hm.
    unfold on_popstate, popstate_route, loadRoute, loadRoute_with.
    rewrite (bool_decide_false _ Hne).
    rewrite (transition_undefined depth u home false w
               (get_property_none _ _ Hu Hk) Hh Hm).
    eexists. split; [reflexivity |].
    rewrite activated_router, activated_console.
    rewrite (activated_active_containers "home" home true
               (on_browser (log_line LogWarn (not_found_warning u).2) w) Hh).
    repeat split; reflexivity.
  - intros p b Hlh Hu Hhome Hm.
    destruct (construct_unknown_hash depth u p b Hk Hlh Hu Hhome Hm)
      as (w' & E & Hc & Ha & _ & Hw).
    exists w'. auto.
Qed.

(** C2 as stated fails: on the "about" page, with no transition in
    progress and nothing pending, [navigateTo] of the registered route
    "skills" starts a transition, but [navigateTo] of the unregistered name
    "gallery" returns without a warning and without activating home; the
    "about" container stays the active one. *)
Lemma unregistered_navigateTo_keeps_about :
  isLoading (router settled_about_world) = false /\
  timers (browser settled_about_world) = [] /\
  currentRoute (router settled_about_world) = "about" /\
  routes (router settled_about_world) !! "gallery" = None /\
  isLoading (router (snd (navigateTo 16 "skills" settled_about_world))) = true /\
  timers (browser (snd (navigateTo 16 "skills" settled_about_world)))
    = [(100, TransitionTask "skills" true)] /\
  navigateTo 16 "gallery" settled_about_world = (JS.Normal tt, settled_about_world) /\
  currentRoute (router (snd (navigateTo 16 "gallery" settled_about_world))) = "about" /\
  ("home-page" ∉ activeClass (page (snd (navigateTo 16 "gallery" settled_about_world)))) /\
  active_containers (snd (navigateTo 16 "gallery" settled_about_world))
    = {["about-page"]} /\
  console (browser (snd (navigateTo 16 "gallery" settled_about_world))) = [].
Proof.
  assert (E : navigateTo 16 "gallery" settled_about_world
              = (JS.Normal tt, settled_about_world))
    by (vm_compute; reflexivity).
  rewrite E. cbn [snd].
  do 6 (split; [vm_compute; reflexivity |]).
  split; [reflexivity |].
  split; [vm_compute; reflexivity |].
  split; [decide_by_computation |].
  split; vm_compute; reflexivity.
Qed.

(** The amended C2 at "gallery": ignored by [navigateTo] on the settled
    "about" page, falling back to home when a [popstate] carries it there,
    and when the sample document is opened at [#gallery]. *)
Lemma unregistered_route_falls_back_witness :
  ("gallery" ∉ object_prototype_keys) /\
  isLoading (router settled_about_world) = false /\
  navigateTo 16 "gallery" settled_about_world = (JS.Normal tt, settled_about_world) /\
  (exists w',
     on_popstate 2 (StateObject (Some "gallery")) settled_about_world
       = (JS.Normal tt, w') /\
     currentRoute (router w') = "home" /\
     active_containers w' = {["home-page"]} /\
     console (browser w') = [not_found_warning "gallery"]) /\
  (exists w',
     construct 1 sample_page gallery_browser = (JS.Normal tt, w') /\
     currentRoute (router w') = "home" /\
     active_containers w' = {["home-page"]}).
Proof.
  assert (Hk : "gallery" ∉ object_prototype_keys) by decide_by_computation.
  split; [exact Hk |]. split; [vm_compute; reflexivity |].
  destruct (unregistered_route_falls_back 0 "gallery" Hk) as (_ & Hpop & Hinit).
  destruct (unregistered_route_falls_back 16 "gallery" Hk) as (Hnav & _ & _).
  split; [| split].
  - apply Hnav; [vm_compute; reflexivity |]. vm_compute. discriminate.
  - destruct (Hpop settled_about_world {| element := "home-page"; path := "home" |})
      as (w' & E & Hc & Ha & Hco);
      [vm_compute; reflexivity | discriminate | vm_compute; reflexivity
      | vm_compute; reflexivity |].
    exists w'. split; [exact E |]. split; [exact Hc |]. split; [exact Ha |].
    rewrite Hco. vm_compute. reflexivity.
  - destruct (Hinit sample_page gallery_browser) as (w' & E & Hc & Ha & _);
      [reflexivity | vm_compute; reflexivity | decide_by_computation
      | vm_compute; reflexivity |].
    exists w'. auto.
Defined.

(** C1 at the "about" route of the loaded sample world. *)
Lemma transition_activates_exactly_one_witness :
  registered_by_init (routes (router loaded_world)) /\
  routes (router loaded_world) !! "about"
    = Some {| element := "about-page"; path := "about" |} /\
  menu_ready (page loaded_world) = true /\
  exists w',
    performRouteTransition 1 "about" true loaded_world = (JS.Normal tt, w') /\
    active_containers w' = {["about-page"]}.
Proof.
  assert (H1 : registered_by_init (routes (router loaded_world))).
  { unfold registered_by_init. decide_by_computation. }
  assert (H2 : routes (router loaded_world) !! "about"
               = Some {| element := "about-page"; path := "about" |})
    by (vm_compute; reflexivity).
  assert (H3 : menu_ready (page loaded_world) = true) by (vm_compute; reflexivity).
  repeat split; try assumption.
  destruct (transition_activates_exactly_one 0 "about" _ true loaded_world H1 H2 H3)
    as (w' & E & _ & _ & Ha & _).
  exists w'. split; assumption.
Defined.

(** C8 at the home route of the loaded sample world. *)
Lemma navigateTo_current_route_witness :
  currentRoute (router loaded_world) = "home" /\
  pushed (browser (snd (navigateTo 16 "home" loaded_world)))
    = pushed (browser loaded_world) /\
  router (snd (navigateTo 16 "home" loaded_world)) = router loaded_world.
Proof.
  assert (H : currentRoute (router loaded_world) = "home") by (vm_compute; reflexivity).
  split; [exact H |].
  destruct (navigateTo_current_route 16 "home" loaded_world H) as (Hp & _ & Hr & _).
  split; assumption.
Defined.

(** The part of C7 that the code keeps: a [popstate] whose state is null,
    has no route, or names a registered route runs the transition of a user
    navigation with [pushState = false], and pushes nothing. *)
Lemma popstate_registered_pushes_nothing depth st obj (w : World) :
  routes (router w) !! popstate_route st = Some obj ->
  menu_ready (page w) = true ->
  on_popstate (S depth) st w
    = (JS.Normal tt, activated (popstate_route st) obj false w) /\
  pushed (browser (snd (on_popstate (S depth) st w))) = pushed (browser w) /\
  popstate_route StateNull = "home" /\
  popstate_route (StateObject None) = "home".
Proof.
  intros Hr Hm. unfold on_popstate, loadRoute, loadRoute_with.
  rewrite (transition_registered depth _ obj false w Hr Hm).
  simpl snd. rewrite activated_pushed. auto.
Qed.

(** C7 (evaluation of the code): on the loaded sample world a [popstate]
    whose state names the unregistered route "gallery" completes, makes home
    the active route, and calls [history.pushState] for "home": the history
    log grows by one entry and the fragment becomes [#home]. *)
Theorem popstate_unknown_route_pushes_home :
  let st := StateObject (Some "gallery") in
  routes (router loaded_world) !! "gallery" = None /\
  pushed (browser loaded_world) = [] /\
  fst (on_popstate 16 st loaded_world) = JS.Normal tt /\
  pushed (browser (snd (on_popstate 16 st loaded_world))) = ["home"] /\
  locationHash (browser (snd (on_popstate 16 st loaded_world))) = "#home" /\
  currentRoute (router (snd (on_popstate 16 st loaded_world))) = "home" /\
  console (browser (snd (on_popstate 16 st loaded_world)))
    = [not_found_warning "gallery"].
Proof.
  cbv zeta. repeat split; vm_compute; reflexivity.
Qed.

(** C10 (evaluation of the code): "constructor" is not a registered route,
    but [this.routes["constructor"]] is the inherited [Object] function, so
    the guard of [navigateTo] lets it through. The call sets [isLoading],
    shows the loader and schedules the transition; when the 100ms timer
    fires, the transition strips [active] from every page container and
    throws, [hideLoader] is never reached, [isLoading] stays set, and a
    later [navigateTo] of a registered route is ignored. *)
Theorem navigateTo_inherited_name_not_ignored :
  let w1 := snd (navigateTo 16 "constructor" loaded_world) in
  let w2 := snd (fire 16 0 w1) in
  routes (router loaded_world) !! "constructor" = None /\
  currentRoute (router loaded_world) = "home" /\
  isLoading (router loaded_world) = false /\
  active_containers loaded_world = {["home-page"]} /\
  fst (navigateTo 16 "constructor" loaded_world) = JS.Normal tt /\
  w1 <> loaded_world /\
  isLoading (router w1) = true /\
  loader (page w1)
    = Some {| loaderHidden := false; progressBar := Some "progress 3s ease-in-out" |} /\
  timers (browser w1) = [(100, TransitionTask "constructor" true)] /\
  fst (fire 16 0 w1)
    = JS.Throw (JS.TypeError "this.routes[route].element is undefined") /\
  active_containers w2 = ∅ /\
  isLoading (router w2) = true /\
  timers (browser w2) = [] /\
  navigateTo 16 "about" w2 = (JS.Normal tt, w2).
Proof.
  cbv zeta.
  do 5 (split; [vm_compute; reflexivity |]).
  split.
  { intros E. apply (f_equal (fun w => isLoading (router w))) in E.
    vm_compute in E. discriminate E. }
  do 7 (split; [vm_compute; reflexivity |]).
  vm_compute. reflexivity.
Qed.

(** *** Events, and what further statements need *)

(** What reaches the router after its construction: a click on a
    [[data-route]] link, a [popstate], or a pending timer coming due. *)
Inductive Event :=
| Click (data_route : string)
| PopState (st : HistoryState)
| TimerDue (k : nat).

Definition step (depth : nat) (ev : Event) : JS.M World unit :=
  match ev with
  | Click r => on_link_click depth r
  | PopState st => on_popstate depth st
  | TimerDue k => fire depth k
  end.

(** The current route is registered and its container is the one page
    container with the class [active]. *)
Definition one_active (w : World) : Prop :=
  exists obj, routes (router w) !! currentRoute (router w) = Some obj /\
              active_containers w = {[element obj]}.

(** The pages are as they were: same registry, same current route, same
    elements with the class [active]. *)
Definition same_pages (w w' : World) : Prop :=
  routes (router w') = routes (router w) /\
  currentRoute (router w') = currentRoute (router w) /\
  activeClass (page w') = activeClass (page w).

(** [showLoader] finds the elements it dereferences. *)
Definition loader_ready (p : Page) : bool :=
  match loader p, appContainer p with
  | Some l, Some _ => bool_decide (is_Some (progressBar l))
  | _, _ => false
  end.

(** The world right after [navigateTo] has started a navigation. *)
Definition started (route : string) (w : World) : World :=
  on_browser (set_timers (fun l => l ++ [(100, TransitionTask route true)]))
    (on_page (fun p =>
       set_loader (Some {| loaderHidden := false;
                           progressBar := Some "progress 3s ease-in-out" |})
         (set_appContainer (Some false) p))
       (on_router (set_isLoading true) w)).

(** The sample document without its home page. *)
Definition homeless_world : World :=
  snd (construct 16
         (set_activeClass (fun _ => ∅)
            {| elementIds := elementIds sample_page ∖ {["home-page"]};
               activeClass := ∅;
               navLinks := navLinks sample_page; routeDots := routeDots sample_page;
               loader := loader sample_page; appContainer := appContainer sample_page;
               mobileMenu := mobileMenu sample_page;
               mobileMenuBtn := mobileMenuBtn sample_page;
               title := title sample_page |})
         {| pushed := []; locationHash := "#about"; console := [];
            scrolls := 0; timers := [] |}).

(** *** The monad, as far as the proofs below need it *)

Lemma bind_normal_inv {A B} (m : JS.M World A) (k : A -> JS.M World B) w b w' :
  JS.bind m k w = (JS.Normal b, w') ->
  exists a w1, m w = (JS.Normal a, w1) /\ k a w1 = (JS.Normal b, w').
Proof.
  unfold JS.bind. destruct (m w) as [[a | e] w1]; [eauto | discriminate].
Qed.

Lemma same_pages_refl w : same_pages w w.
Proof. repeat split. Qed.

Lemma same_pages_trans w1 w2 w3 :
  same_pages w1 w2 -> same_pages w2 w3 -> same_pages w1 w3.
Proof. unfold same_pages. intros (?&?&?) (?&?&?). repeat split; congruence. Qed.

Lemma same_pages_bind {A B} (m : JS.M World A) (k : A -> JS.M World B) w :
  same_pages w (snd (m w)) ->
  (forall a w1, same_pages w1 (snd (k a w1))) ->
  same_pages w (snd (JS.bind m k w)).
Proof.
  intros Hm Hk. unfold JS.bind. destruct (m w) as [[a | e] w1]; cbn in *.
  - eapply same_pages_trans; [exact Hm | apply Hk].
  - exact Hm.
Qed.

Lemma one_active_same_pages w w' :
  same_pages w w' -> one_active w -> one_active w'.
Proof.
  intros (Hr & Hc & Ha) (obj & Ho & Hact). exists obj.
  unfold active_containers, page_containers in *.
  rewrite Hr, Hc, Ha. auto.
Qed.

Lemma closeMobileMenu_same_pages w : same_pages w (snd (closeMobileMenu w)).
Proof.
  destruct (closeMobileMenu_frame w) as (Hr & _ & Ha & _).
  unfold same_pages. rewrite Hr, Ha. auto.
Qed.

Lemma showLoader_same_pages w : same_pages w (snd (showLoader w)).
Proof.
  destruct w as [r p b]. destruct p as [ids act nl rd lo ac mm mb ti].
  unfold showLoader, JS.bind, JS.get, JS.modify, JS.throw. cbn.
  destruct lo as [[h pb] |]; cbn; [| repeat split].
  destruct ac; cbn; [| repeat split].
  destruct pb; cbn; repeat split.
Qed.

Lemma setTimeout_same_pages t d w : same_pages w (snd (setTimeout t d w)).
Proof. destruct w as [r p b]. repeat split. Qed.

Lemma showLoader_ready (w : World) :
  loader_ready (page w) = true ->
  showLoader w
  = (JS.Normal tt,
     on_page (fun p =>
       set_loader (Some {| loaderHidden := false;
                           progressBar := Some "progress 3s ease-in-out" |})
         (set_appContainer (Some false) p))
       (on_router (set_isLoading true) w)).
Proof.
  destruct w as [r p b]. destruct p as [ids act nl rd lo ac mm mb ti].
  unfold loader_ready, showLoader, JS.bind, JS.get, JS.modify, JS.throw. cbn.
  destruct lo as [[h pb] |]; [| discriminate].
  destruct ac; [| discriminate]. cbn.
  destruct pb; [reflexivity | discriminate].
Qed.

(** *** One active page, at every step *)

(** A transition that completes has activated a registered route,
    whichever branch it took. *)
Lemma transition_normal_one_active depth :
  forall route pushState (w w' : World),
    performRouteTransition depth route pushState w = (JS.Normal tt, w') ->
    one_active w' /\ routes (router w') = routes (router w).
Proof.
  induction depth as [| depth IH]; intros route pushState w w' H.
  - discriminate H.
  - cbn [performRouteTransition] in H.
    unfold JS.bind at 1 2, JS.get at 1, JS.modify at 1 in H.
    destruct (get_property (routes (router w)) route) as [obj | k |] eqn:Hg.
    + (* the registered branch *)
      assert (Hr : routes (router w) !! route = Some obj).
      { unfold get_property in Hg. destruct (routes (router w) !! route);
          [congruence | case_bool_decide; discriminate]. }
      unfold JS.bind at 1 2 3, JS.modify at 1 2 in H.
      set (w2 := on_router (set_currentRoute route) _) in H.
      assert (Hpush :
        (if pushState then JS.modify (on_browser (push_entry route)) else JS.ret tt) w2
        = (JS.Normal tt, if pushState then on_browser (push_entry route) w2 else w2))
        by (destruct pushState; reflexivity).
      rewrite Hpush in H. clear Hpush.
      unfold JS.bind at 1 2, updateNavigation, JS.modify at 1 in H.
      set (w4 := on_page _ _) in H.
      pose proof (closeMobileMenu_same_pages w4) as (Fr & Fc & Fa).
      destruct (closeMobileMenu w4) as [[[] | e] w5]; [| discriminate H].
      unfold JS.bind, scrollToTop, updatePageTitle, JS.modify in H.
      injection H as <-. cbn [snd] in Fr, Fc, Fa.
      assert (Hw4 : routes (router w4) = routes (router w) /\
                    currentRoute (router w4) = route /\
                    activeClass (page w4)
                    = (activeClass (page w) ∖ page_containers (router w))
                        ∪ {[element obj]}).
      { subst w4 w2. destruct w as [r p b]. destruct pushState; repeat split. }
      destruct Hw4 as (H4r & H4c & H4a).
      split; [| cbn; congruence].
      exists obj. unfold active_containers, page_containers. cbn.
      rewrite Fr, Fc, Fa, H4r, H4c, H4a. split; [exact Hr |].
      pose proof (element_in_containers _ _ _ Hr) as Hin.
      unfold page_containers in Hin.
      apply set_eq. intros x.
      rewrite elem_of_intersection, elem_of_union, elem_of_difference,
        elem_of_singleton.
      split; [intros [[[_ Hx] | Hx] Hc]; [contradiction | exact Hx] |].
      intros ->. auto.
    + discriminate H.
    + (* the fall-back *)
      unfold JS.bind at 1, console_log, JS.modify at 1, loadRoute_with in H.
      apply IH in H as [H1 H2]. split; [exact H1 |].
      rewrite H2. destruct w as [r p b]. reflexivity.
Qed.

Lemma navigateTo_keeps_pages depth r w : same_pages w (snd (navigateTo depth r w)).
Proof.
  unfold navigateTo, JS.bind at 1, JS.get at 1. cbv zeta.
  destruct (truthy _ && _ && _).
  - unfold loadRoute, loadRoute_with. apply same_pages_bind.
    + apply showLoader_same_pages.
    + intros _ w1. apply setTimeout_same_pages.
  - case_bool_decide.
    + apply same_pages_bind.
      * destruct w as [ro p b]. repeat split.
      * intros _ w1. apply closeMobileMenu_same_pages.
    + apply same_pages_refl.
Qed.

Lemma fire_unfold depth k (w : World) :
  fire depth k w
  = match timers (browser w) !! k with
    | None => (JS.Normal tt, w)
    | Some (_, t) =>
        run_task depth t (on_browser (set_timers (fun l => delete k l)) w)
    end.
Proof.
  unfold fire, JS.bind, JS.get, JS.modify, JS.ret.
  destruct (timers (browser w) !! k) as [[d t] |]; reflexivity.
Qed.

(** At every step that completes, whether a click, a [popstate] or a timer
    coming due, a world with exactly one active page container (that of the
    current route) is followed by one. *)
Theorem step_keeps_one_active (depth : nat) (ev : Event) (w : World) :
  one_active w ->
  fst (step depth ev w) = JS.Normal tt ->
  one_active (snd (step depth ev w)).
Proof.
  intros Hinv Hn. destruct ev as [r | st | k]; cbn [step] in *.
  - eapply one_active_same_pages; [apply navigateTo_keeps_pages | exact Hinv].
  - unfold on_popstate, loadRoute, loadRoute_with in *.
    destruct (performRouteTransition depth (popstate_route st) false w)
      as [c w'] eqn:E. cbn in Hn. subst c.
    apply transition_normal_one_active in E as [H _]. exact H.
  - rewrite fire_unfold in *.
    destruct (timers (browser w) !! k) as [[d t] |]; [| exact Hinv].
    set (w0 := on_browser (set_timers (fun l => delete k l)) w) in *.
    assert (H0 : one_active w0).
    { eapply one_active_same_pages; [| exact Hinv].
      subst w0. destruct w as [ro p b]. repeat split. }
    clearbody w0. destruct t as [route pushState | |]; cbn [run_task] in *.
    + unfold JS.bind in *.
      destruct (performRouteTransition depth route pushState w0)
        as [[[] | e] w1] eqn:E; [| discriminate Hn].
      apply transition_normal_one_active in E as [H _].
      eapply one_active_same_pages; [apply setTimeout_same_pages | exact H].
    + eapply one_active_same_pages; [| exact H0].
      unfold JS.bind, JS.get, JS.modify, JS.throw, setTimeout.
      destruct w0 as [ro [ids act nl rd lo ac mm mb ti] b]. cbn.
      destruct lo; repeat split.
    + eapply one_active_same_pages; [| exact H0].
      unfold JS.bind, JS.get, JS.modify, JS.throw.
      destruct w0 as [ro [ids act nl rd lo ac mm mb ti] b]. cbn.
      destruct ac; repeat split.
Qed.

(** The invariant at a click on "contact" in the loaded sample world and at
    the transition timer that follows. *)
Lemma step_keeps_one_active_witness :
  one_active loaded_world /\
  one_active (snd (step 16 (TimerDue 0) (snd (step 16 (Click "contact") loaded_world)))).
Proof.
  assert (H0 : one_active loaded_world).
  { exists {| element := "home-page"; path := "home" |}.
    split; vm_compute; reflexivity. }
  split; [exact H0 |].
  apply step_keeps_one_active; [| vm_compute; reflexivity].
  apply step_keeps_one_active; [exact H0 | vm_compute; reflexivity].
Defined.



(** *** A whole navigation *)


Lemma navigateTo_starts depth r obj (w : World) :
  routes (router w) !! r = Some obj ->
  isLoading (router w) = false ->
  currentRoute (router w) <> r ->
  loader_ready (page w) = true ->
  navigateTo depth r w = (JS.Normal tt, started r w).
Proof.
  intros Hr Hl Hc Hlo.
  unfold navigateTo, JS.bind at 1, JS.get at 1. cbv zeta.
  rewrite (get_property_own _ _ _ Hr), Hl, (bool_decide_false _ Hc).
  cbn [truthy negb andb]. unfold loadRoute, loadRoute_with, JS.bind.
  rewrite (showLoader_ready w Hlo). reflexivity.
Qed.



(** *** Names that break the router, and a missing home page *)

(** The warnings of [depth] nested fall-backs that start at [route]. *)
Fixpoint fallback_warnings (depth : nat) (route : string) : list (Level * string) :=
  match depth with
  | 0 => []
  | S d => not_found_warning route :: fallback_warnings d "home"
  end.

Lemma registrations_not_inherited pa el :
  (pa, el) ∈ registrations -> pa ∉ object_prototype_keys.
Proof.
  unfold registrations. rewrite !elem_of_cons, elem_of_nil.
  intros [H | [H | [H | [H | [H | [H | [H | []]]]]]]];
    injection H as -> _; decide_by_computation.
Qed.

Lemma registered_inherited ids k :
  k ∈ object_prototype_keys ->
  get_property (registered ids registrations ∅) k = Inherited k.
Proof.
  intros Hk. unfold get_property.
  destruct (registered ids registrations ∅ !! k) as [o |] eqn:E.
  - exfalso. pose proof (registered_is_by_init ids k o E) as Hin. cbn in Hin.
    exact (registrations_not_inherited _ _ Hin Hk).
  - rewrite (bool_decide_true _ Hk). reflexivity.
Qed.

(** Opening the page at a fragment that names a property of
    [Object.prototype] ([#constructor], [#toString], ...): [init] takes the
    inherited value for a route, the transition strips [active] from every
    page container and throws, so [new SPARouter()] throws with no page
    active. *)
Theorem construct_inherited_hash_throws
    (depth : nat) (k : string) (p : Page) (b : Browser) :
  k ∈ object_prototype_keys ->
  locationHash b = "#" +:+ k ->
  exists w',
    construct (S depth) p b
    = (JS.Throw (JS.TypeError "this.routes[route].element is undefined"), w') /\
    active_containers w' = ∅ /\
    currentRoute (router w') = "home" /\
    pushed (browser w') = pushed b.
Proof.
  intros Hk Hh. unfold construct, init.
  set (w0 := {| router := {| routes := ∅; currentRoute := "home"; isLoading := false |};
                page := p; browser := b |}).
  destruct (register_all (elementIds p) registrations w0 eq_refl)
    as (w1 & E & Hr & Hp & Hpu & Hlh & _).
  unfold JS.bind at 1. rewrite E.
  unfold JS.bind at 1, JS.get at 1. cbv zeta.
  rewrite Hlh, Hr. simpl locationHash. rewrite Hh. simpl slice1.
  simpl routes. change ("" +:+ k) with k.
  rewrite (registered_inherited _ _ Hk). simpl truthy. cbv iota.
  unfold loadRoute, loadRoute_with. cbn [performRouteTransition].
  unfold JS.bind at 1 2, JS.get at 1, JS.modify at 1.
  rewrite Hr. subst w0. cbn [routes router set_routes].
  rewrite (registered_inherited _ _ Hk).
  unfold JS.throw. eexists. split; [reflexivity |].
  destruct w1 as [r1 p1 b1]. cbn in *. subst r1.
  unfold active_containers. cbn.
  split; [| auto].
  apply set_eq. intros x.
  rewrite elem_of_intersection, elem_of_difference. split; [tauto |].
  intros Hx. exfalso. exact (not_elem_of_empty x Hx).
Qed.

Lemma construct_inherited_hash_throws_witness :
  ("constructor" ∈ object_prototype_keys) /\
  fst (construct 1 sample_page
         {| pushed := []; locationHash := "#constructor"; console := [];
            scrolls := 0; timers := [] |})
  = JS.Throw (JS.TypeError "this.routes[route].element is undefined").
Proof.
  assert (Hk : "constructor" ∈ object_prototype_keys) by decide_by_computation.
  split; [exact Hk |].
  destruct (construct_inherited_hash_throws 0 "constructor" sample_page
              {| pushed := []; locationHash := "#constructor"; console := [];
                 scrolls := 0; timers := [] |} Hk eq_refl) as (w' & E & _).
  rewrite E. reflexivity.
Defined.

(** Without a registered home route, a transition to a name that has no
    property at all never completes: every call warns and falls back to
    "home", which is looked up the same way, until the call stack is
    exhausted. Nothing is pushed, the current route stays, and no page
    container is left active. *)
Theorem unknown_route_without_home_overflows (depth : nat) :
  forall (u : string) (pushState : bool) (w : World),
    get_property (routes (router w)) u = Undefined ->
    get_property (routes (router w)) "home" = Undefined ->
    exists w',
      performRouteTransition depth u pushState w
      = (JS.Throw (JS.RangeError "Maximum call stack size exceeded"), w') /\
      router w' = router w /\
      pushed (browser w') = pushed (browser w) /\
      console (browser w') = console (browser w) ++ fallback_warnings depth u /\
      (0 < depth -> active_containers w' = ∅).
Proof.
  induction depth as [| depth IH]; intros u pushState w Hu Hh.
  - exists w. cbn. rewrite app_nil_r. repeat split. lia.
  - cbn [performRouteTransition].
    unfold JS.bind at 1 2, JS.get at 1, JS.modify at 1. rewrite Hu.
    unfold JS.bind at 1, console_log, JS.modify at 1, loadRoute_with.
    set (w1 := on_browser _ _).
    destruct (IH "home" true w1) as (w' & E & Hr & Hp & Hc & Ha).
    { subst w1. destruct w as [r p b]. exact Hh. }
    { subst w1. destruct w as [r p b]. exact Hh. }
    exists w'. split; [exact E |].
    rewrite Hr, Hp, Hc. subst w1. destruct w as [r p b]. cbn.
    split; [reflexivity |]. split; [reflexivity |].
    split; [rewrite <- app_assoc; reflexivity |].
    intros _. destruct depth as [| d].
    + cbn in E. injection E as <-. unfold active_containers. cbn.
      apply set_eq. intros x.
      rewrite elem_of_intersection, elem_of_difference. split; [tauto |].
      intros Hx. exfalso. exact (not_elem_of_empty x Hx).
    + apply Ha. lia.
Qed.

Lemma unknown_route_without_home_overflows_witness :
  get_property (routes (router homeless_world)) "gallery" = Undefined /\
  get_property (routes (router homeless_world)) "home" = Undefined /\
  fst (performRouteTransition 16 "gallery" false homeless_world)
  = JS.Throw (JS.RangeError "Maximum call stack size exceeded").
Proof.
  assert (H1 : get_property (routes (router homeless_world)) "gallery" = Undefined)
    by (vm_compute; reflexivity).
  assert (H2 : get_property (routes (router homeless_world)) "home" = Undefined)
    by (vm_compute; reflexivity).
  split; [exact H1 |]. split; [exact H2 |].
  destruct (unknown_route_without_home_overflows 16 "gallery" false homeless_world H1 H2)
    as (w' & E & _).
  rewrite E. reflexivity.
Defined.

(** *** The in-transition guard, the highlighting, the title *)

(** Rapid clicks: once a click has started a navigation, a click on the
    link of any other route than the current one, before the loader is
    hidden again, changes nothing at all. *)
Theorem second_click_is_ignored (depth : nat) (r1 r2 : string) (obj : RouteObj) (w : World) :
  routes (router w) !! r1 = Some obj ->
  isLoading (router w) = false ->
  currentRoute (router w) <> r1 ->
  currentRoute (router w) <> r2 ->
  loader_ready (page w) = true ->
  on_link_click depth r2 (snd (on_link_click depth r1 w))
  = (JS.Normal tt, snd (on_link_click depth r1 w)) /\
  isLoading (router (snd (on_link_click depth r1 w))) = true /\
  timers (browser (snd (on_link_click depth r1 w)))
  = timers (browser w) ++ [(100, TransitionTask r1 true)].
Proof.
  intros Hr Hl Hc1 Hc2 Hlo. unfold on_link_click.
  rewrite (navigateTo_starts depth r1 obj w Hr Hl Hc1 Hlo). cbn [snd].
  split; [| split].
  - unfold navigateTo, JS.bind, JS.get. cbv zeta.
    assert (Hil : isLoading (router (started r1 w)) = true)
      by (destruct w as [ro p b]; reflexivity).
    assert (Hcur : currentRoute (router (started r1 w)) = currentRoute (router w))
      by (destruct w as [ro p b]; reflexivity).
    rewrite Hil, Hcur, andb_false_r, andb_false_l.
    rewrite (bool_decide_false _ Hc2). reflexivity.
  - destruct w as [ro p b]. reflexivity.
  - destruct w as [ro p b]. reflexivity.
Qed.

Lemma second_click_is_ignored_witness :
  routes (router loaded_world) !! "about"
    = Some {| element := "about-page"; path := "about" |} /\
  isLoading (router loaded_world) = false /\
  currentRoute (router loaded_world) <> "about" /\
  currentRoute (router loaded_world) <> "contact" /\
  loader_ready (page loaded_world) = true /\
  on_link_click 16 "contact" (snd (on_link_click 16 "about" loaded_world))
  = (JS.Normal tt, snd (on_link_click 16 "about" loaded_world)).
Proof.
  assert (H1 : routes (router loaded_world) !! "about"
               = Some {| element := "about-page"; path := "about" |})
    by (vm_compute; reflexivity).
  assert (H2 : isLoading (router loaded_world) = false) by (vm_compute; reflexivity).
  assert (H3 : currentRoute (router loaded_world) <> "about")
    by (vm_compute; discriminate).
  assert (H4 : currentRoute (router loaded_world) <> "contact")
    by (vm_compute; discriminate).
  assert (H5 : loader_ready (page loaded_world) = true) by (vm_compute; reflexivity).
  do 5 (split; [assumption |]).
  exact (proj1 (second_click_is_ignored 16 "about" "contact" _ loaded_world
                  H1 H2 H3 H4 H5)).
Defined.

Lemma activated_nav route obj pushState (w : World) :
  navLinks (page (activated route obj pushState w))
    = nav_link_update route <$> navLinks (page w) /\
  routeDots (page (activated route obj pushState w))
    = route_dot_update route <$> routeDots (page w) /\
  title (page (activated route obj pushState w))
    = match get_property titles route with
      | Own t => TitleText t
      | Inherited k => TitleBuiltin k
      | Undefined => TitleText "Divyanshu Pandey - Professional Portfolio"
      end.
Proof.
  destruct w as [r p b]. destruct p as [ids act nl rd lo ac mm mb ti].
  unfold activated, closed_menu. cbn.
  destruct pushState; cbn; destruct mm as [[] |]; cbn;
    try destruct mb as [[] |]; cbn; auto.
Qed.

Lemma registrations_titled pa el :
  (pa, el) ∈ registrations -> exists t, titles !! pa = Some t.
Proof.
  unfold registrations. rewrite !elem_of_cons, elem_of_nil.
  intros [H | [H | [H | [H | [H | [H | [H | []]]]]]]];
    injection H as -> _; eexists; vm_compute; reflexivity.
Qed.

(** After a completed transition to a route that [init] registered: a
    navigation link is highlighted exactly when its [data-route] is that
    route, a route dot is active, selected and focusable exactly then, the
    links and dots are otherwise the same, and the document title is the
    text the table holds for the route, never the home fall-back by
    default nor an inherited built-in. *)
Theorem transition_updates_navigation_and_title
    (depth : nat) (r : string) (obj : RouteObj) (pushState : bool) (w : World) :
  registered_by_init (routes (router w)) ->
  routes (router w) !! r = Some obj ->
  menu_ready (page w) = true ->
  exists w' t,
    performRouteTransition (S depth) r pushState w = (JS.Normal tt, w') /\
    linkRoute <$> navLinks (page w') = linkRoute <$> navLinks (page w) /\
    dotRoute <$> routeDots (page w') = dotRoute <$> routeDots (page w) /\
    (forall l, l ∈ navLinks (page w') ->
               linkActive l = bool_decide (linkRoute l = Some r)) /\
    (forall d, d ∈ routeDots (page w') ->
               dotActive d = bool_decide (dotRoute d = Some r) /\
               dotSelected d = (if dotActive d then "true" else "false") /\
               dotTabindex d = (if dotActive d then "0" else "-1")) /\
    titles !! r = Some t /\
    title (page w') = TitleText t.
Proof.
  intros Hinit Hr Hm.
  destruct (registrations_titled r (element obj) (Hinit r obj Hr)) as [t Ht].
  exists (activated r obj pushState w), t.
  split; [apply transition_registered; assumption |].
  destruct (activated_nav r obj pushState w) as (Hn & Hd & Hti).
  rewrite Hn, Hd, Hti, (get_property_own _ _ _ Ht).
  split; [rewrite <- list_fmap_compose; reflexivity |].
  split.
  { rewrite <- list_fmap_compose. apply list_fmap_ext. intros _ d _.
    unfold route_dot_update. cbn. case_bool_decide; reflexivity. }
  split.
  { intros l Hl. apply list_elem_of_fmap in Hl as (l0 & -> & _). reflexivity. }
  split; [| auto].
  intros d Hd'. apply list_elem_of_fmap in Hd' as (d0 & -> & _).
  unfold route_dot_update. case_bool_decide as Hb; cbn.
  - rewrite (bool_decide_true _ Hb). auto.
  - rewrite (bool_decide_false _ Hb). auto.
Qed.

Lemma transition_updates_navigation_and_title_witness :
  registered_by_init (routes (router loaded_world)) /\
  routes (router loaded_world) !! "about"
    = Some {| element := "about-page"; path := "about" |} /\
  menu_ready (page loaded_world) = true /\
  exists w',
    performRouteTransition 1 "about" true loaded_world = (JS.Normal tt, w') /\
    title (page w') = TitleText "About - Divyanshu Pandey".
Proof.
  assert (H1 : registered_by_init (routes (router loaded_world))).
  { unfold registered_by_init. decide_by_computation. }
  assert (H2 : routes (router loaded_world) !! "about"
               = Some {| element := "about-page"; path := "about" |})
    by (vm_compute; reflexivity).
  assert (H3 : menu_ready (page loaded_world) = true) by (vm_compute; reflexivity).
  repeat (split; [assumption |]).
  destruct (transition_updates_navigation_and_title 0 "about" _ true loaded_world
              H1 H2 H3) as (w' & t & E & _ & _ & _ & _ & Ht & Hti).
  exists w'. split; [exact E |]. rewrite Hti.
  vm_compute in Ht. injection Ht as <-. reflexivity.
Defined.

(** The back button on the loaded sample world after a visit to "about":
    a [popstate] with a null state. *)
Lemma popstate_registered_pushes_nothing_witness :
  routes (router settled_about_world) !! popstate_route StateNull
    = Some {| element := "home-page"; path := "home" |} /\
  menu_ready (page settled_about_world) = true /\
  pushed (browser (snd (on_popstate 1 StateNull settled_about_world)))
    = pushed (browser settled_about_world) /\
  currentRoute (router (snd (on_popstate 1 StateNull settled_about_world))) = "home".
Proof.
  assert (H1 : routes (router settled_about_world) !! popstate_route StateNull
               = Some {| element := "home-page"; path := "home" |})
    by (vm_compute; reflexivity).
  assert (H2 : menu_ready (page settled_about_world) = true)
    by (vm_compute; reflexivity).
  split; [exact H1 |]. split; [exact H2 |].
  destruct (popstate_registered_pushes_nothing 0 StateNull _ settled_about_world H1 H2)
    as (E & Hp & _).
  split; [exact Hp |]. rewrite E. cbn [snd]. rewrite activated_router. reflexivity.
Defined.

(** *** The mobile menu ([LoadingScreen.initMobileMenu]) *)

(** The click listener of [#mobileMenuBtn]. [initMobileMenu] throws before
    it installs anything when the button is missing. *)
Definition on_menu_button_click : JS.M World unit :=
  JS.bind JS.get (fun w =>
  match mobileMenuBtn (page w) with
  | None => JS.ret tt
  | Some b =>
      match mobileMenu (page w) with
      | None => JS.throw (JS.TypeError "mobileMenu is null")
      | Some isOpen =>
          let isExpanded := negb isOpen in
          JS.bind (JS.modify (on_page (set_mobileMenu (Some isExpanded)))) (fun _ =>
          match iconClasses b with
          | None => JS.throw (JS.TypeError "mobileMenuBtn has no icon")
          | Some cls =>
              JS.modify (on_page (set_mobileMenuBtn (Some
                {| iconClasses :=
                     Some (if isExpanded
                           then class_replace "ri-menu-line" "ri-close-line" cls
                           else class_replace "ri-close-line" "ri-menu-line" cls);
                   ariaExpanded := Some (if isExpanded then "true" else "false") |})))
          end)
      end
  end).

(** The click listener of the document; [in_menu] and [in_button] say
    whether the click's target lies inside the menu or the button. The
    listener calls [this.closeMobileMenu()], and [this] is the
    [LoadingScreen], which has no method of that name. *)
Definition on_document_click (in_menu in_button : bool) : JS.M World unit :=
  JS.bind JS.get (fun w =>
  match mobileMenuBtn (page w) with
  | None => JS.ret tt
  | Some _ =>
      match mobileMenu (page w) with
      | None => JS.throw (JS.TypeError "mobileMenu is null")
      | Some isOpen =>
          if negb in_menu && negb in_button && isOpen
          then JS.throw (JS.TypeError "this.closeMobileMenu is not a function")
          else JS.ret tt
      end
  end).

(** A click outside the mobile menu never closes it: with the menu closed
    the listener does nothing, with the menu open it throws, and in both
    cases the world is as it was. *)
Theorem click_outside_never_closes_menu (in_menu in_button : bool) (w : World) :
  snd (on_document_click in_menu in_button w) = w /\
  (forall b, mobileMenuBtn (page w) = Some b ->
             mobileMenu (page w) = Some true ->
             in_menu = false -> in_button = false ->
             fst (on_document_click in_menu in_button w)
             = JS.Throw (JS.TypeError "this.closeMobileMenu is not a function")).
Proof.
  unfold on_document_click, JS.bind, JS.get, JS.throw, JS.ret. split.
  - destruct (mobileMenuBtn (page w)); [| reflexivity].
    destruct (mobileMenu (page w)); [| reflexivity].
    destruct (negb in_menu && negb in_button && b); reflexivity.
  - intros b Hb Hm -> ->. rewrite Hb, Hm. reflexivity.
Qed.

Lemma class_replace_back (a b : string) (cls : gset string) :
  a <> b -> a ∈ cls -> b ∉ cls ->
  class_replace b a (class_replace a b cls) = cls.
Proof.
  intros Hab Ha Hb. unfold class_replace.
  rewrite (bool_decide_true _ Ha).
  rewrite bool_decide_true by (apply elem_of_union; right; apply elem_of_singleton; reflexivity).
  apply set_eq. intros x.
  rewrite !elem_of_union, !elem_of_difference, !elem_of_union,
    !elem_of_difference, !elem_of_singleton.
  destruct (decide (x = a)) as [-> | Hxa]; [tauto |].
  destruct (decide (x = b)) as [-> | Hxb]; tauto.
Qed.

Lemma class_replace_absent (a b : string) (cls : gset string) :
  a ∉ cls -> class_replace a b cls = cls.
Proof. intros H. unfold class_replace. rewrite (bool_decide_false _ H). reflexivity. Qed.

(** Opening the menu with the button: from a closed menu whose icon shows
    the menu glyph, one click opens it and swaps the glyph, and a second
    click restores the menu, the icon classes and [aria-expanded="false"]. *)
Theorem menu_button_toggles (w : World) (cls : gset string) (ae : option string) :
  mobileMenu (page w) = Some false ->
  mobileMenuBtn (page w) = Some {| iconClasses := Some cls; ariaExpanded := ae |} ->
  "ri-menu-line" ∈ cls -> "ri-close-line" ∉ cls ->
  let w1 := snd (on_menu_button_click w) in
  let w2 := snd (on_menu_button_click w1) in
  fst (on_menu_button_click w) = JS.Normal tt /\
  mobileMenu (page w1) = Some true /\
  mobileMenuBtn (page w1)
    = Some {| iconClasses := Some (cls ∖ {["ri-menu-line"]} ∪ {["ri-close-line"]});
              ariaExpanded := Some "true" |} /\
  fst (on_menu_button_click w1) = JS.Normal tt /\
  mobileMenu (page w2) = Some false /\
  mobileMenuBtn (page w2)
    = Some {| iconClasses := Some cls; ariaExpanded := Some "false" |} /\
  router w2 = router w /\ browser w2 = browser w /\
  activeClass (page w2) = activeClass (page w).
Proof.
  intros Hm Hb Hin Hout. cbv zeta.
  destruct w as [r p b]. destruct p as [ids act nl rd lo ac mm mb ti].
  cbn in Hm, Hb. subst mm mb.
  unfold on_menu_button_click, JS.bind, JS.get, JS.modify. cbn.
  pose proof (class_replace_back "ri-menu-line" "ri-close-line" cls) as Hback.
  unfold class_replace in *.
  rewrite (bool_decide_true _ Hin) in *. cbn.
  rewrite Hback by (try discriminate; assumption).
  repeat split.
Qed.

Lemma menu_button_toggles_witness :
  mobileMenu (page loaded_world) = Some false /\
  mobileMenuBtn (page loaded_world)
    = Some {| iconClasses := Some {["ri-menu-line"]}; ariaExpanded := Some "false" |} /\
  mobileMenu (page (snd (on_menu_button_click loaded_world))) = Some true /\
  mobileMenu (page (snd (on_menu_button_click (snd (on_menu_button_click loaded_world)))))
    = Some false.
Proof.
  assert (H1 : mobileMenu (page loaded_world) = Some false) by (vm_compute; reflexivity).
  assert (H2 : mobileMenuBtn (page loaded_world)
               = Some {| iconClasses := Some {["ri-menu-line"]};
                         ariaExpanded := Some "false" |})
    by (vm_compute; reflexivity).
  split; [exact H1 |]. split; [exact H2 |].
  destruct (menu_button_toggles loaded_world {["ri-menu-line"]} (Some "false") H1 H2)
    as (_ & Ha & _ & _ & Hb & _).
  - apply elem_of_singleton. reflexivity.
  - rewrite elem_of_singleton. discriminate.
  - split; assumption.
Defined.

Lemma menu_button_opens (w : World) (cls : gset string) (ae : option string) :
  mobileMenu (page w) = Some false ->
  mobileMenuBtn (page w) = Some {| iconClasses := Some cls; ariaExpanded := ae |} ->
  "ri-menu-line" ∈ cls ->
  mobileMenu (page (snd (on_menu_button_click w))) = Some true /\
  mobileMenuBtn (page (snd (on_menu_button_click w)))
    = Some {| iconClasses := Some (cls ∖ {["ri-menu-line"]} ∪ {["ri-close-line"]});
              ariaExpanded := Some "true" |}.
Proof.
  intros Hm Hb Hin.
  destruct w as [r p b]. destruct p as [ids act nl rd lo ac mm mb ti].
  cbn in Hm, Hb. subst mm mb.
  unfold on_menu_button_click, JS.bind, JS.get, JS.modify. cbn.
  unfold class_replace. rewrite (bool_decide_true _ Hin).
  split; reflexivity.
Qed.

(** A menu opened with the button is closed by the next completed
    transition, which also restores the menu glyph and
    [aria-expanded="false"]. *)
Theorem transition_closes_open_menu
    (depth : nat) (r : string) (obj : RouteObj) (pushState : bool)
    (w : World) (cls : gset string) (ae : option string) :
  routes (router w) !! r = Some obj ->
  mobileMenu (page w) = Some false ->
  mobileMenuBtn (page w) = Some {| iconClasses := Some cls; ariaExpanded := ae |} ->
  "ri-menu-line" ∈ cls -> "ri-close-line" ∉ cls ->
  exists w',
    performRouteTransition (S depth) r pushState (snd (on_menu_button_click w))
    = (JS.Normal tt, w') /\
    mobileMenu (page w') = Some false /\
    mobileMenuBtn (page w')
    = Some {| iconClasses := Some cls; ariaExpanded := Some "false" |} /\
    currentRoute (router w') = r.
Proof.
  intros Hr Hm Hb Hin Hout.
  destruct (menu_button_opens w cls ae Hm Hb Hin) as (H1 & H2).
  set (w1 := snd (on_menu_button_click w)) in *.
  assert (Hr1 : routes (router w1) !! r = Some obj).
  { subst w1. destruct w as [ro p b]. destruct p as [ids act nl rd lo ac mm mb ti].
    cbn in Hm, Hb. subst mm mb. exact Hr. }
  assert (Hm1 : menu_ready (page w1) = true).
  { unfold menu_ready. rewrite H1, H2. reflexivity. }
  exists (activated r obj pushState w1).
  split; [apply transition_registered; assumption |].
  rewrite activated_router. split; [| split; [| reflexivity]].
  - destruct w1 as [ro p b]. destruct p as [ids act nl rd lo ac mm mb ti].
    cbn in H1, H2. subst mm mb. unfold activated, closed_menu.
    destruct pushState; reflexivity.
  - destruct w1 as [ro p b]. destruct p as [ids act nl rd lo ac mm mb ti].
    cbn in H1, H2. subst mm mb. unfold activated, closed_menu.
    pose proof (class_replace_back "ri-menu-line" "ri-close-line" cls) as Hback.
    unfold class_replace in Hback. rewrite (bool_decide_true _ Hin) in Hback.
    destruct pushState; cbn; unfold class_replace;
      rewrite Hback by (try discriminate; assumption); reflexivity.
Qed.

Lemma transition_closes_open_menu_witness :
  routes (router loaded_world) !! "blog"
    = Some {| element := "blog-page"; path := "blog" |} /\
  exists w',
    performRouteTransition 1 "blog" true (snd (on_menu_button_click loaded_world))
    = (JS.Normal tt, w') /\
    mobileMenu (page w') = Some false.
Proof.
  assert (H0 : routes (router loaded_world) !! "blog"
               = Some {| element := "blog-page"; path := "blog" |})
    by (vm_compute; reflexivity).
  assert (H1 : mobileMenu (page loaded_world) = Some false) by (vm_compute; reflexivity).
  assert (H2 : mobileMenuBtn (page loaded_world)
               = Some {| iconClasses := Some {["ri-menu-line"]};
                         ariaExpanded := Some "false" |})
    by (vm_compute; reflexivity).
  split; [exact H0 |].
  destruct (transition_closes_open_menu 0 "blog" _ true loaded_world
              {["ri-menu-line"]} (Some "false") H0 H1 H2)
    as (w' & E & Hm & _).
  - apply elem_of_singleton. reflexivity.
  - rewrite elem_of_singleton. discriminate.
  - exists w'. split; assumption.
Defined.

End Router.

(** ** The contact form ([initFormValidation]) *)

Module ContactForm.

(** An entry of the [inputs] table. *)
Record InputItem := {
  id : string;
  errorId : string;
  validate : JS.jsstring -> bool;
  msg : string
}.

(** [/^[^\s@]+@[^\s@]+\.[^\s@]+$/] *)
Definition email_pattern : Regex.literal :=
  let part := Regex.Plus (Regex.Class true [Regex.CSpace; Regex.CUnit 64]) in
  {| Regex.anchored_start := true;
     Regex.body :=
       Regex.Cat part
         (Regex.Cat (Regex.Lit 64)
            (Regex.Cat part
               (Regex.Cat (Regex.Lit 46) part)));
     Regex.anchored_end := true |}.

(** [(val) => val.length > 0] *)
Definition non_empty (val : JS.jsstring) : bool := Nat.ltb 0 (List.length val).

Definition inputs : list InputItem :=
  [ {| id := "contactName"; errorId := "nameError";
       validate := non_empty; msg := "Full Name is required." |};
    {| id := "contactEmail"; errorId := "emailError";
       validate := Regex.test email_pattern;
       msg := "Please enter a valid email address." |};
    {| id := "contactSubject"; errorId := "subjectError";
       validate := non_empty; msg := "Subject is required." |};
    {| id := "contactMessage"; errorId := "messageError";
       validate := non_empty; msg := "Message cannot be empty." |} ].

(** An [input] or [textarea] of the form. [groupInvalid] is whether its
    closest [.form-group] has the class [invalid]; [None]: it has no such
    ancestor. *)
Record Control := {
  value : JS.jsstring;
  defaultValue : JS.jsstring;
  groupInvalid : option bool;
  ariaInvalid : option string
}.

Record SubmitButton := {
  innerHTML : string;
  disabled : bool;
  ariaBusy : option string;
  background : string
}.

(** A toast: message and type. *)
Record Notification := { text : string; kind : string }.

#[global] Instance Notification_eq_dec : EqDecision Notification.
Proof. solve_decision. Defined.

(** [notification.remove()] for the oldest toast equal to [n]. *)
Fixpoint remove_first (n : Notification) (ns : list Notification) : list Notification :=
  match ns with
  | [] => []
  | m :: rest => if decide (m = n) then rest else m :: remove_first n rest
  end.

Inductive Task :=
| DismissTask (n : Notification)          (* showNotification, 3000ms *)
| AnimationEndTask (n : Notification)     (* the toast's [animationend] listener *)
| SubmissionTask                          (* the simulated API call, 2000ms *)
| RestoreButtonTask (originalText : string). (* the [finally] block, 2000ms *)

(** The document as far as the form handlers read and write it. The form's
    controls are kept by id, with [documentOrder] listing those ids in
    document order; each control is taken to have a form group of its
    own. *)
Record World := {
  controls : gmap string Control;
  documentOrder : list string;
  errorTexts : gmap string string;       (* [textContent] of the error elements *)
  submitBtn : option SubmitButton;
  notifications : option (list Notification);  (* children of [#notification-container] *)
  focused : option string;
  defaultPrevented : bool;               (* of the submit event being handled *)
  awaiting : option string;              (* a handler suspended at [await]: its [originalText] *)
  console : list string;
  timers : list (nat * Task)             (* pending callbacks, with their delay *)
}.

Definition set_controls (f : gmap string Control -> gmap string Control) (w : World) : World :=
  {| controls := f (controls w); documentOrder := documentOrder w;
     errorTexts := errorTexts w; submitBtn := submitBtn w;
     notifications := notifications w; focused := focused w;
     defaultPrevented := defaultPrevented w; awaiting := awaiting w;
     console := console w; timers := timers w |}.
Definition set_errorTexts (f : gmap string string -> gmap string string) (w : World) : World :=
  {| controls := controls w; documentOrder := documentOrder w;
     errorTexts := f (errorTexts w); submitBtn := submitBtn w;
     notifications := notifications w; focused := focused w;
     defaultPrevented := defaultPrevented w; awaiting := awaiting w;
     console := console w; timers := timers w |}.
Definition set_submitBtn (b : option SubmitButton) (w : World) : World :=
  {| controls := controls w; documentOrder := documentOrder w;
     errorTexts := errorTexts w; submitBtn := b;
     notifications := notifications w; focused := focused w;
     defaultPrevented := defaultPrevented w; awaiting := awaiting w;
     console := console w; timers := timers w |}.
Definition set_notifications (n : option (list Notification)) (w : World) : World :=
  {| controls := controls w; documentOrder := documentOrder w;
     errorTexts := errorTexts w; submitBtn := submitBtn w;
     notifications := n; focused := focused w;
     defaultPrevented := defaultPrevented w; awaiting := awaiting w;
     console := console w; timers := timers w |}.
Definition set_focused (f : option string) (w : World) : World :=
  {| controls := controls w; documentOrder := documentOrder w;
     errorTexts := errorTexts w; submitBtn := submitBtn w;
     notifications := notifications w; focused := f;
     defaultPrevented := defaultPrevented w; awaiting := awaiting w;
     console := console w; timers := timers w |}.
Definition set_defaultPrevented (d : bool) (w : World) : World :=
  {| controls := controls w; documentOrder := documentOrder w;
     errorTexts := errorTexts w; submitBtn := submitBtn w;
     notifications := notifications w; focused := focused w;
     defaultPrevented := d; awaiting := awaiting w;
     console := console w; timers := timers w |}.
Definition set_awaiting (a : option string) (w : World) : World :=
  {| controls := controls w; documentOrder := documentOrder w;
     errorTexts := errorTexts w; submitBtn := submitBtn w;
     notifications := notifications w; focused := focused w;
     defaultPrevented := defaultPrevented w; awaiting := a;
     console := console w; timers := timers w |}.
Definition add_console (line : string) (w : World) : World :=
  {| controls := controls w; documentOrder := documentOrder w;
     errorTexts := errorTexts w; submitBtn := submitBtn w;
     notifications := notifications w; focused := focused w;
     defaultPrevented := defaultPrevented w; awaiting := awaiting w;
     console := console w ++ [line]; timers := timers w |}.
Definition add_timer (delay : nat) (t : Task) (w : World) : World :=
  {| controls := controls w; documentOrder := documentOrder w;
     errorTexts := errorTexts w; submitBtn := submitBtn w;
     notifications := notifications w; focused := focused w;
     defaultPrevented := defaultPrevented w; awaiting := awaiting w;
     console := console w; timers := timers w ++ [(delay, t)] |}.

(** [window.utils.showNotification(message, type)] *)
Definition showNotification (message type : string) : JS.M World unit :=
  JS.bind JS.get (fun w =>
  match notifications w with
  | None => JS.modify (add_console "Notification container not found.")
  | Some ns =>
      let n := {| text := message; kind := type |} in
      JS.bind (JS.modify (set_notifications (Some (ns ++ [n])))) (fun _ =>
      JS.modify (add_timer 3000 (DismissTask n)))
  end).

(** [validateInput], called with the elements that [getElementById] finds
    for [item.id] and [item.errorId]. *)
Definition validateInput (item : InputItem) : JS.M World bool :=
  JS.bind JS.get (fun w =>
  match controls w !! id item with
  | None => JS.throw (JS.TypeError "inputElement is null")
  | Some c =>
      let isValid := validate item (JS.trim (value c)) in
      match groupInvalid c with
      | None => JS.throw (JS.TypeError "formGroup is null")
      | Some _ =>
          let c1 := {| value := value c; defaultValue := defaultValue c;
                       groupInvalid := Some (negb isValid);
                       ariaInvalid := ariaInvalid c |} in
          JS.bind (JS.modify (set_controls (fun m => <[id item := c1]> m))) (fun _ =>
          match errorTexts w !! errorId item with
          | None => JS.throw (JS.TypeError "errorElement is null")
          | Some _ =>
              JS.bind (JS.modify (set_errorTexts (fun m =>
                         <[errorId item := if isValid then "" else msg item]> m))) (fun _ =>
              JS.bind (JS.modify (set_controls (fun m =>
                         <[id item :=
                             {| value := value c; defaultValue := defaultValue c;
                                groupInvalid := Some (negb isValid);
                                ariaInvalid := Some (if isValid then "false" else "true") |}]> m)))
                (fun _ => JS.ret isValid))
          end)
      end
  end).

(** The [input] and [blur] listeners of a field. *)
Definition on_input (item : InputItem) : JS.M World unit :=
  JS.bind (validateInput item) (fun _ => JS.ret tt).

(** The loop of the submit handler: validates every field in table order
    and returns [allValid]. *)
Fixpoint validate_all (items : list InputItem) (allValid : bool) : JS.M World bool :=
  match items with
  | [] => JS.ret allValid
  | item :: rest =>
      JS.bind (validateInput item) (fun ok =>
      validate_all rest (if ok then allValid else false))
  end.

Definition group_is_invalid (w : World) (i : string) : bool :=
  match controls w !! i with
  | Some c => match groupInvalid c with Some true => true | _ => false end
  | None => false
  end.

Definition sending_html : string :=
  "<i class=" +:+ JS.quote +:+ "ri-loader-4-line ri-spin" +:+ JS.quote +:+ "></i> Sending...".
Definition sent_html : string :=
  "<i class=" +:+ JS.quote +:+ "ri-check-line" +:+ JS.quote +:+ "></i> Message Sent!".
Definition failed_html : string :=
  "<i class=" +:+ JS.quote +:+ "ri-error-warning-line" +:+ JS.quote +:+ "></i> Send Failed!".

(** Writes to the submit button, which the handler found when it started. *)
Definition with_button (f : SubmitButton -> SubmitButton) : JS.M World unit :=
  JS.bind JS.get (fun w =>
  match submitBtn w with
  | None => JS.throw (JS.TypeError "submitBtn is null")
  | Some b => JS.modify (set_submitBtn (Some (f b)))
  end).

(** The submit listener, up to its [await]. *)
Definition on_submit : JS.M World unit :=
  JS.bind (JS.modify (set_defaultPrevented true)) (fun _ =>
  JS.bind (validate_all inputs true) (fun allValid =>
  if allValid then
    JS.bind JS.get (fun w =>
    match submitBtn w with
    | None => JS.throw (JS.TypeError "submitBtn is null")
    | Some b =>
        JS.bind (JS.modify (set_submitBtn (Some
          {| innerHTML := sending_html; disabled := true;
             ariaBusy := Some "true"; background := background b |}))) (fun _ =>
        JS.bind (JS.modify (add_timer 2000 SubmissionTask)) (fun _ =>
        JS.modify (set_awaiting (Some (innerHTML b)))))
    end)
  else
    JS.bind (showNotification "Please correct the errors in the form." "error") (fun _ =>
    JS.bind JS.get (fun w =>
    match find (group_is_invalid w) (documentOrder w) with
    | Some i => JS.modify (set_focused (Some i))
    | None => JS.ret tt
    end)))).

(** [contactForm.reset()] *)
Definition form_reset : JS.M World unit :=
  JS.modify (set_controls (fun m =>
    (fun c => {| value := defaultValue c; defaultValue := defaultValue c;
                 groupInvalid := groupInvalid c; ariaInvalid := ariaInvalid c |}) <$> m)).

(** The body of the [inputs.forEach] that resets the validation state. *)
Definition reset_validation (item : InputItem) : JS.M World unit :=
  JS.bind JS.get (fun w =>
  match controls w !! id item with
  | None => JS.throw (JS.TypeError "element is null")
  | Some c =>
      match groupInvalid c with
      | None => JS.throw (JS.TypeError "formGroup is null")
      | Some _ =>
          JS.bind (JS.modify (set_controls (fun m =>
            <[id item := {| value := value c; defaultValue := defaultValue c;
                            groupInvalid := Some false;
                            ariaInvalid := ariaInvalid c |}]> m))) (fun _ =>
          match errorTexts w !! errorId item with
          | None => JS.throw (JS.TypeError "errorElement is null")
          | Some _ =>
              JS.bind (JS.modify (set_errorTexts (fun m => <[errorId item := ""]> m))) (fun _ =>
              JS.modify (set_controls (fun m =>
                <[id item := {| value := value c; defaultValue := defaultValue c;
                                groupInvalid := Some false;
                                ariaInvalid := Some "false" |}]> m)))
          end)
      end
  end).

(** The [try] block from its [await] on. In the source the awaited
    operation is a timer promise, which always fulfils; the handler is
    written for one that may reject, so its outcome is a parameter here. *)
Definition submit_try (awaited : JS.Completion unit) : JS.M World unit :=
  JS.bind (fun w => (awaited, w)) (fun _ =>
  JS.bind (with_button (fun b =>
             {| innerHTML := sent_html; disabled := disabled b;
                ariaBusy := ariaBusy b;
                background := "var(--gradient-secondary)" |})) (fun _ =>
  JS.bind (showNotification "Message sent successfully!" "success") (fun _ =>
  JS.bind form_reset (fun _ =>
  JS.for_each reset_validation inputs)))).

(** The [catch] block. *)
Definition submit_catch (error : JS.Error) : JS.M World unit :=
  JS.bind (JS.modify (add_console "Form submission error:")) (fun _ =>
  JS.bind (with_button (fun b =>
             {| innerHTML := failed_html; disabled := disabled b;
                ariaBusy := ariaBusy b;
                background := "var(--secondary)" |})) (fun _ =>
  showNotification "Failed to send message. Please try again." "error")).

(** The [finally] block. *)
Definition submit_finally (originalText : string) : JS.M World unit :=
  JS.bind (with_button (fun b =>
             {| innerHTML := innerHTML b; disabled := false;
                ariaBusy := Some "false";
                background := background b |})) (fun _ =>
  JS.modify (add_timer 2000 (RestoreButtonTask originalText))).

(** The rest of the submit listener, from the point where the awaited
    operation settles. *)
Definition resume_submit (awaited : JS.Completion unit) : JS.M World unit :=
  JS.bind JS.get (fun w0 =>
  match awaiting w0 with
  | None => JS.ret tt
  | Some originalText =>
      JS.bind (JS.modify (set_awaiting None)) (fun _ =>
      JS.try_catch_finally (submit_try awaited) submit_catch
        (submit_finally originalText))
  end).

(** Running a timer callback. *)
Definition run_task (t : Task) : JS.M World unit :=
  match t with
  | DismissTask n =>
      (* starts the 0.3s slide-out animation of the toast (a style the model
         does not keep) and registers the one-time [animationend] listener,
         which the browser calls when that animation ends *)
      JS.modify (add_timer 300 (AnimationEndTask n))
  | AnimationEndTask n =>
      JS.bind JS.get (fun w =>
      match notifications w with
      | None => JS.ret tt
      | Some ns =>
          JS.modify (set_notifications (Some (remove_first n ns)))
      end)
  | SubmissionTask => resume_submit (JS.Normal tt)
  | RestoreButtonTask originalText =>
      with_button (fun b =>
        {| innerHTML := originalText; disabled := disabled b;
           ariaBusy := ariaBusy b; background := "" |})
  end.

(** *** Auxiliary definitions for the statements *)

(** What the email pattern says in words: no white space and no [@] in a
    part, and the shape [part @ part . part] with non-empty parts. *)
Definition email_char (c : N) : bool :=
  negb (JS.is_white_space c) && negb (c =? 64)%N.

Definition email_part (s : JS.jsstring) : Prop :=
  s <> [] /\ Forall (fun c => email_char c = true) s.

Definition email_shape (s : JS.jsstring) : Prop :=
  exists l d t, s = l ++ [64%N] ++ d ++ [46%N] ++ t /\
                email_part l /\ email_part d /\ email_part t.

(** The verdict of [validateInput] for the field [i] holding [s]: the
    predicate of its table entry on the trimmed value. A control that is
    not in the table is never judged. *)
Definition field_valid (i : string) (s : JS.jsstring) : bool :=
  match find (fun item => String.eqb (id item) i) inputs with
  | Some item => validate item (JS.trim s)
  | None => true
  end.

Definition field_fails (w : World) (i : string) : bool :=
  match controls w !! i with
  | Some c => negb (field_valid i (value c))
  | None => false
  end.

(** What [validateInput] writes on the control it judged. *)
Definition judged (item : InputItem) (c : Control) : Control :=
  let isValid := validate item (JS.trim (value c)) in
  {| value := value c; defaultValue := defaultValue c;
     groupInvalid := Some (negb isValid);
     ariaInvalid := Some (if isValid then "false" else "true") |}.

(** The world after a completed [validateInput]. *)
Definition validated (item : InputItem) (w : World) : World :=
  match controls w !! id item with
  | Some c =>
      set_controls (fun m => <[id item := judged item c]> m)
        (set_errorTexts
           (fun m => <[errorId item :=
                         if validate item (JS.trim (value c)) then "" else msg item]> m)
           w)
  | None => w
  end.

(** The markup a handler needs for [item]: the control, listed in the
    document order, inside a form group, and the error element. *)
Definition item_ready (w : World) (item : InputItem) : bool :=
  bool_decide (id item ∈ documentOrder w)
  && match controls w !! id item with
     | Some c => bool_decide (is_Some (groupInvalid c))
     | None => false
     end
  && bool_decide (is_Some (errorTexts w !! errorId item)).

(** The page has the markup of the four fields and the notification
    container, and no other control of the form sits in an invalid group
    (nothing but [validateInput] ever marks one). *)
Definition form_ready (w : World) : bool :=
  forallb (item_ready w) inputs
  && forallb (fun i => bool_decide (i ∈ id <$> inputs) || negb (group_is_invalid w i))
       (documentOrder w)
  && bool_decide (is_Some (notifications w)).

Definition generic_error : Notification :=
  {| text := "Please correct the errors in the form."; kind := "error" |}.
Definition success_notification : Notification :=
  {| text := "Message sent successfully!"; kind := "success" |}.
Definition failure_notification : Notification :=
  {| text := "Failed to send message. Please try again."; kind := "error" |}.

Definition blank : Control :=
  {| value := []; defaultValue := []; groupInvalid := Some false; ariaInvalid := None |}.

Definition holding (s : string) : Control :=
  {| value := JS.lit s; defaultValue := []; groupInvalid := Some false;
     ariaInvalid := None |}.

(** A page with the four fields in table order; the concrete world of the
    examples. The name is filled in, the email is not an address, the
    message is empty. *)
Definition sample_form : World :=
  {| controls :=
       list_to_map [ ("contactName", holding "Ada");
                     ("contactEmail", holding "ada@example");
                     ("contactSubject", holding "Hello");
                     ("contactMessage", blank) ];
     documentOrder := ["contactName"; "contactEmail"; "contactSubject"; "contactMessage"];
     errorTexts := list_to_map [ ("nameError", ""); ("emailError", "");
                                 ("subjectError", ""); ("messageError", "") ];
     submitBtn := Some {| innerHTML := "Send Message"; disabled := false;
                          ariaBusy := None; background := "" |};
     notifications := Some [];
     focused := None;
     defaultPrevented := false;
     awaiting := None;
     console := [];
     timers := [] |}.

(** The same page with every field valid, after the submit handler has run
    up to its [await]. *)
Definition sample_pending : World :=
  snd (on_submit
         (set_controls (fun m =>
            <["contactEmail" := holding "ada@example.org"]>
              (<["contactMessage" := holding "Hi there"]> m)) sample_form)).

(** *** The email predicate *)

Lemma email_class_char (c : N) :
  Regex.class_matches true [Regex.CSpace; Regex.CUnit 64] c = email_char c.
Proof.
  unfold Regex.class_matches, email_char, existsb, Regex.item_matches.
  destruct (JS.is_white_space c), (c =? 64)%N; reflexivity.
Qed.

Lemma lang_email_part (s : JS.jsstring) :
  Regex.lang (Regex.Plus (Regex.Class true [Regex.CSpace; Regex.CUnit 64])) s
  <-> email_part s.
Proof.
  rewrite Regex.lang_plus_class. unfold email_part.
  split; intros [Hne Hall]; (split; [exact Hne |]).
  - eapply Forall_impl; [exact Hall |].
    intros c Hc. cbv beta in Hc. rewrite email_class_char in Hc. exact Hc.
  - eapply Forall_impl; [exact Hall |].
    intros c Hc. cbv beta in *. rewrite email_class_char. exact Hc.
Qed.

(** The pattern accepts exactly the strings of the shape it spells. *)
Lemma email_test_shape (t : JS.jsstring) :
  Regex.test email_pattern t = true <-> email_shape t.
Proof.
  unfold email_pattern. cbv zeta. rewrite Regex.test_anchored.
  unfold email_shape. split.
  - intros H.
    apply Regex.lang_cat_inv in H as (l & r1 & -> & Hl & H).
    apply Regex.lang_cat_inv in H as (a & r2 & -> & Ha & H).
    apply Regex.lang_cat_inv in H as (d & r3 & -> & Hd & H).
    apply Regex.lang_cat_inv in H as (o & x & -> & Ho & Hx).
    apply Regex.lang_lit in Ha. apply Regex.lang_lit in Ho. subst a o.
    exists l, d, x. split; [reflexivity |].
    repeat split; apply lang_email_part; assumption.
  - intros (l & d & x & -> & Hl & Hd & Hx).
    apply lang_email_part in Hl, Hd, Hx.
    apply Regex.lang_cat; [exact Hl |].
    apply Regex.lang_cat; [apply Regex.lang_lit; reflexivity |].
    apply Regex.lang_cat; [exact Hd |].
    apply Regex.lang_cat; [apply Regex.lang_lit; reflexivity | exact Hx].
Qed.

(** C3: the verdict on the email field is the test of
    [^[^\s@]+@[^\s@]+\.[^\s@]+$] on the trimmed value, for every value; the
    test holds exactly for the strings made of three non-empty parts without
    white space or [@], joined by [@] and [.]. It accepts "a@b.co" and
    rejects "a@b", the empty string and "a b@c.com". *)
Theorem email_predicate_is_regex_test (s : JS.jsstring) :
  field_valid "contactEmail" s = Regex.test email_pattern (JS.trim s) /\
  (field_valid "contactEmail" s = true <-> email_shape (JS.trim s)) /\
  (forall (w : World) (c : Control) (item : InputItem),
     item ∈ inputs -> id item = "contactEmail" ->
     controls w !! "contactEmail" = Some c -> value c = s ->
     is_Some (groupInvalid c) -> is_Some (errorTexts w !! "emailError") ->
     fst (validateInput item w) = JS.Normal (Regex.test email_pattern (JS.trim s))) /\
  field_valid "contactEmail" (JS.lit "a@b.co") = true /\
  field_valid "contactEmail" (JS.lit "a@b") = false /\
  field_valid "contactEmail" (JS.lit "") = false /\
  field_valid "contactEmail" (JS.lit "a b@c.com") = false.
Proof.
  assert (E : field_valid "contactEmail" s = Regex.test email_pattern (JS.trim s))
    by reflexivity.
  split; [exact E |]. split; [rewrite E; apply email_test_shape |].
  split; [| repeat split; vm_compute; reflexivity].
  intros w c item Hin Hid Hc Hv [g Hg] [e He].
  unfold inputs in Hin. rewrite !elem_of_cons, elem_of_nil in Hin.
  destruct Hin as [-> | [-> | [-> | [-> | []]]]]; try discriminate Hid.
  unfold validateInput, JS.bind, JS.get, JS.modify, JS.throw, JS.ret.
  cbn [id errorId validate msg]. rewrite Hc, Hg. cbn [fst snd errorTexts set_controls].
  rewrite He, Hv. reflexivity.
Qed.

(** *** The submit handler *)

Lemma item_ready_spec (w : World) (item : InputItem) :
  item_ready w item = true ->
  id item ∈ documentOrder w /\
  exists c g e, controls w !! id item = Some c /\ groupInvalid c = Some g /\
                errorTexts w !! errorId item = Some e.
Proof.
  unfold item_ready. rewrite !andb_true_iff.
  intros [[H1 H2] H3].
  apply bool_decide_eq_true in H1. apply bool_decide_eq_true in H3 as [e He].
  destruct (controls w !! id item) as [c |]; [| discriminate].
  apply bool_decide_eq_true in H2 as [g Hg]. eauto 10.
Qed.

Lemma validateInput_ready (item : InputItem) (w : World) :
  item_ready w item = true ->
  exists c, controls w !! id item = Some c /\
            validateInput item w
            = (JS.Normal (validate item (JS.trim (value c))), validated item w).
Proof.
  intros H. destruct (item_ready_spec w item H) as (_ & c & g & e & Hc & Hg & He).
  exists c. split; [exact Hc |].
  unfold validateInput, validated, JS.bind, JS.get, JS.modify, JS.throw, JS.ret.
  rewrite Hc, Hg. cbn [errorTexts set_controls]. rewrite He.
  destruct w as [cs ord ers btn ns fo dp aw co ti].
  unfold set_controls, set_errorTexts, judged. cbn.
  rewrite insert_insert_eq. reflexivity.
Qed.

(** The table has one entry per id. *)
Lemma inputs_find (item : InputItem) :
  item ∈ inputs ->
  find (fun it => String.eqb (id it) (id item)) inputs = Some item.
Proof.
  unfold inputs. rewrite !elem_of_cons, elem_of_nil.
  intros [-> | [-> | [-> | [-> | []]]]]; reflexivity.
Qed.

Lemma field_valid_outside (i : string) (s : JS.jsstring) :
  i ∉ id <$> inputs -> field_valid i s = true.
Proof.
  intros H. unfold field_valid.
  destruct (find _ inputs) as [item |] eqn:E; [| reflexivity].
  apply find_some in E as [Hin Heq]. apply String.eqb_eq in Heq.
  exfalso. apply H. apply list_elem_of_fmap. exists item. split; [congruence |].
  apply list_elem_of_In. exact Hin.
Qed.

(** One judged field: the frame, and the new state of the groups. *)
Lemma validated_facts (item : InputItem) (w : World) (c : Control) :
  item ∈ inputs ->
  controls w !! id item = Some c ->
  let w' := validated item w in
  validate item (JS.trim (value c)) = negb (field_fails w (id item)) /\
  documentOrder w' = documentOrder w /\
  submitBtn w' = submitBtn w /\
  notifications w' = notifications w /\
  focused w' = focused w /\
  defaultPrevented w' = defaultPrevented w /\
  awaiting w' = awaiting w /\
  timers w' = timers w /\
  (forall i, field_fails w' i = field_fails w i) /\
  (forall i, group_is_invalid w' i
             = if decide (i = id item) then field_fails w i else group_is_invalid w i) /\
  (forall it, item_ready w it = true -> item_ready w' it = true).
Proof.
  intros Hin Hc. cbv zeta. unfold validated. rewrite Hc.
  assert (Hv : validate item (JS.trim (value c)) = negb (field_fails w (id item))).
  { unfold field_fails, field_valid. rewrite Hc, (inputs_find item Hin).
    rewrite negb_involutive. reflexivity. }
  split; [exact Hv |].
  destruct w as [cs ord ers btn ns fo dp aw co ti]. cbn in *.
  do 7 (split; [reflexivity |]).
  split; [| split].
  - intros i. unfold field_fails. cbn.
    destruct (decide (i = id item)) as [-> | Hne].
    + rewrite lookup_insert_eq, Hc. reflexivity.
    + rewrite lookup_insert_ne by congruence. reflexivity.
  - intros i. unfold group_is_invalid. cbn.
    destruct (decide (i = id item)) as [-> | Hne].
    + rewrite lookup_insert_eq. cbn. rewrite Hv.
      rewrite negb_involutive. destruct (field_fails _ _); reflexivity.
    + rewrite lookup_insert_ne by congruence. reflexivity.
  - intros it. unfold item_ready. cbn. rewrite !andb_true_iff.
    intros [[H1 H2] H3]. repeat split; [exact H1 | |].
    + destruct (decide (id it = id item)) as [E | Hne].
      * rewrite E, lookup_insert_eq. cbn.
        first [reflexivity | apply bool_decide_eq_true; eauto].
      * rewrite lookup_insert_ne by congruence. exact H2.
    + apply bool_decide_eq_true. apply bool_decide_eq_true in H3.
      destruct (decide (errorId it = errorId item)) as [E | Hne].
      * rewrite E, lookup_insert_eq. eauto.
      * rewrite lookup_insert_ne by congruence. exact H3.
Qed.

Lemma forallb_pointwise {A} (f g : A -> bool) (l : list A) :
  (forall x, f x = g x) -> forallb f l = forallb g l.
Proof.
  intros H. induction l as [| x l IH]; simpl; [reflexivity |].
  rewrite H, IH. reflexivity.
Qed.

Lemma find_pointwise {A} (f g : A -> bool) (l : list A) :
  (forall x, x ∈ l -> f x = g x) -> find f l = find g l.
Proof.
  induction l as [| x l IH]; intros H; simpl; [reflexivity |].
  rewrite (H x) by (apply elem_of_cons; auto).
  rewrite IH; [reflexivity |].
  intros y Hy. apply H. apply elem_of_cons. auto.
Qed.

(** The validation loop of the submit handler completes; it returns whether
    every judged field passed, and marks exactly the groups of those that
    did not. *)
Lemma validate_all_ready (items : list InputItem) :
  forall (w : World) (b : bool),
    (forall it, it ∈ items -> it ∈ inputs /\ item_ready w it = true) ->
    exists w',
      validate_all items b w
      = (JS.Normal (b && forallb (fun it => negb (field_fails w (id it))) items), w') /\
      documentOrder w' = documentOrder w /\
      submitBtn w' = submitBtn w /\
      notifications w' = notifications w /\
      focused w' = focused w /\
      defaultPrevented w' = defaultPrevented w /\
      awaiting w' = awaiting w /\
      timers w' = timers w /\
      (forall i, field_fails w' i = field_fails w i) /\
      (forall i, group_is_invalid w' i
                 = if bool_decide (i ∈ id <$> items)
                   then field_fails w i else group_is_invalid w i).
Proof.
  induction items as [| item rest IH]; intros w b Hall.
  - exists w. cbn. rewrite andb_true_r. repeat split; reflexivity.
  - destruct (Hall item) as [Hin Hr]; [apply elem_of_cons; auto |].
    destruct (validateInput_ready item w Hr) as (c & Hc & E).
    destruct (validated_facts item w c Hin Hc)
      as (Hv & Ho & Hb & Hn & Hf & Hd & Ha & Ht & Hff & Hg & Hready).
    destruct (IH (validated item w)
                 (if validate item (JS.trim (value c)) then b else false))
      as (w' & E' & Ho' & Hb' & Hn' & Hf' & Hd' & Ha' & Ht' & Hff' & Hg').
    { intros it Hit. destruct (Hall it) as [H1 H2]; [apply elem_of_cons; auto |].
      split; [exact H1 | apply Hready; exact H2]. }
    exists w'. split.
    + cbn [validate_all]. unfold JS.bind at 1. rewrite E, E'. f_equal. f_equal.
      cbn [forallb]. rewrite Hv.
      rewrite (forallb_pointwise _ (fun it => negb (field_fails w (id it))))
        by (intros it; rewrite Hff; reflexivity).
      destruct (field_fails w (id item)), b; reflexivity.
    + rewrite Ho', Hb', Hn', Hf', Hd', Ha', Ht'.
      do 7 (split; [assumption |]).
      split; [intros i; rewrite Hff'; apply Hff |].
      intros i. rewrite Hg', Hff, Hg. rewrite fmap_cons.
      destruct (decide (i = id item)) as [-> | Hne].
      * rewrite (bool_decide_true (id item ∈ id item :: (id <$> rest)))
          by (apply elem_of_cons; auto).
        destruct (bool_decide (id item ∈ id <$> rest)); reflexivity.
      * destruct (bool_decide_reflect (i ∈ id <$> rest)) as [Hi | Hi].
        -- rewrite bool_decide_true by (apply elem_of_cons; auto). reflexivity.
        -- rewrite bool_decide_false; [reflexivity |].
           rewrite elem_of_cons. intros [? | ?]; contradiction.
Qed.

Lemma field_fails_outside (w : World) (i : string) :
  i ∉ id <$> inputs -> field_fails w i = false.
Proof.
  intros H. unfold field_fails. destruct (controls w !! i); [| reflexivity].
  rewrite field_valid_outside by exact H. reflexivity.
Qed.

(** C4: when the page has the form's markup and at least one of the four
    predicates fails on the trimmed value, the submit handler completes with
    the default prevented, the button untouched and nothing awaited (no
    simulated submission), exactly one new notification, the generic error
    (so no success notification), and the focus on the first control in
    document order whose predicate fails. *)
Theorem invalid_submit_is_blocked (w : World) :
  form_ready w = true ->
  existsb (field_fails w) (id <$> inputs) = true ->
  exists w' ns i,
    notifications w = Some ns /\
    on_submit w = (JS.Normal tt, w') /\
    defaultPrevented w' = true /\
    submitBtn w' = submitBtn w /\
    awaiting w' = awaiting w /\
    timers w' = timers w ++ [(3000, DismissTask generic_error)] /\
    notifications w' = Some (ns ++ [generic_error]) /\
    find (field_fails w) (documentOrder w) = Some i /\
    focused w' = Some i.
Proof.
  unfold form_ready. rewrite !andb_true_iff. intros [[HR HO] HN] Hfail.
  apply bool_decide_eq_true in HN as [ns Hns].
  rewrite forallb_forall in HR, HO.
  assert (HR' : forall it, it ∈ inputs ->
                  it ∈ inputs /\ item_ready (set_defaultPrevented true w) it = true).
  { intros it Hit. split; [exact Hit |].
    apply list_elem_of_In in Hit. exact (HR it Hit). }
  destruct (validate_all_ready inputs (set_defaultPrevented true w) true HR')
    as (w1 & E & Ho & Hb & Hn & Hf & Hd & Ha & Ht & Hff & Hg).
  change (field_fails (set_defaultPrevented true w)) with (field_fails w) in *.
  change (group_is_invalid (set_defaultPrevented true w)) with (group_is_invalid w) in *.
  cbn [documentOrder submitBtn notifications focused defaultPrevented awaiting
       timers set_defaultPrevented] in Ho, Hb, Hn, Hf, Hd, Ha, Ht.
  (* some field fails, and it is listed in the document order *)
  apply existsb_exists in Hfail as (x & Hx & Hxf).
  apply list_elem_of_In, list_elem_of_fmap in Hx as (itx & -> & Hitx).
  assert (Hxo : id itx ∈ documentOrder w).
  { apply list_elem_of_In in Hitx.
    destruct (item_ready_spec w itx (HR itx Hitx)) as [H _]. exact H. }
  assert (Hall : forallb (fun it => negb (field_fails w (id it))) inputs = false).
  { apply not_true_is_false. intros Hall. rewrite forallb_forall in Hall.
    apply list_elem_of_In in Hitx. specialize (Hall itx Hitx).
    rewrite Hxf in Hall. discriminate. }
  (* the groups marked invalid are those of the failing fields *)
  assert (Hfind : find (group_is_invalid w1) (documentOrder w)
                  = find (field_fails w) (documentOrder w)).
  { apply find_pointwise. intros i Hi. rewrite Hg.
    apply list_elem_of_In in Hi. specialize (HO i Hi). cbv beta in HO.
    case_bool_decide as Hin; [reflexivity |].
    cbn [orb] in HO.
    rewrite field_fails_outside by exact Hin.
    destruct (group_is_invalid w i); [discriminate | reflexivity]. }
  destruct (find (field_fails w) (documentOrder w)) as [i |] eqn:Efind.
  2:{ exfalso. apply list_elem_of_In in Hxo.
      pose proof (find_none _ _ Efind _ Hxo) as Hno.
      rewrite Hxf in Hno. discriminate. }
  unfold on_submit, JS.bind at 1 2, JS.modify at 1.
  rewrite E, Hall. cbn [andb].
  unfold showNotification, JS.bind at 1 2, JS.get at 1.
  rewrite Hn, Hns.
  unfold JS.bind at 1 2, JS.modify at 1 2, JS.get at 1.
  cbn [documentOrder set_notifications add_timer].
  change (group_is_invalid (add_timer _ _ (set_notifications _ w1)))
    with (group_is_invalid w1).
  rewrite Ho, Hfind.
  eexists _, ns, i. split; [reflexivity |]. split; [reflexivity |].
  unfold JS.modify. cbn.
  rewrite Hd, Hb, Ha, Ht. repeat split; reflexivity.
Qed.

(** *** The settled submission *)

(** The values the controls hold are those of [w]. *)
Definition same_values (w w' : World) : Prop :=
  notifications w' = notifications w /\
  submitBtn w' = submitBtn w /\
  forall i c', controls w' !! i = Some c' ->
    exists c, controls w !! i = Some c /\
              value c' = value c /\ defaultValue c' = defaultValue c.

Lemma same_values_refl w : same_values w w.
Proof. repeat split. eauto. Qed.

Lemma same_values_trans w1 w2 w3 :
  same_values w1 w2 -> same_values w2 w3 -> same_values w1 w3.
Proof.
  intros (N1 & B1 & C1) (N2 & B2 & C2). repeat split; try congruence.
  intros i c3 H3. destruct (C2 i c3 H3) as (c2 & H2 & V2 & D2).
  destruct (C1 i c2 H2) as (c1 & H1 & V1 & D1).
  exists c1. repeat split; congruence.
Qed.

Lemma reset_validation_values item w :
  same_values w (snd (reset_validation item w)).
Proof.
  unfold reset_validation, JS.bind, JS.get, JS.modify, JS.throw.
  destruct (controls w !! id item) as [c |] eqn:Hc; [| apply same_values_refl].
  destruct (groupInvalid c); [| apply same_values_refl].
  destruct w as [cs ord ers btn ns fo dp aw co ti]. cbn in *.
  destruct (ers !! errorId item); cbn; repeat split; cbn;
    intros i c' Hl;
    (destruct (decide (i = id item)) as [-> | Hne];
     [ rewrite !lookup_insert_eq in Hl; injection Hl as <-; eauto
     | rewrite !lookup_insert_ne in Hl by congruence; eauto ]).
Qed.

Lemma for_each_reset_values items w :
  same_values w (snd (JS.for_each reset_validation items w)).
Proof.
  revert w. induction items as [| item rest IH]; intros w; cbn.
  - apply same_values_refl.
  - unfold JS.bind. pose proof (reset_validation_values item w) as H.
    destruct (reset_validation item w) as [[[] | e] w1]; cbn in *.
    + eapply same_values_trans; [exact H | apply IH].
    + exact H.
Qed.

(** C9: when the awaited operation of a suspended valid submit throws, the
    handler completes; the only new notification is the failure one, no
    control and no error text changes (nothing is cleared), the button is
    enabled again at once and gets its original text and background back
    when the 2000ms timer of the [finally] block fires. When the operation
    fulfils instead, the success notification is appended and every control
    is back at its default value. *)
Theorem failed_submission_keeps_form
    (w : World) (error : JS.Error) (originalText : string)
    (btn : SubmitButton) (ns : list Notification) :
  awaiting w = Some originalText ->
  submitBtn w = Some btn ->
  notifications w = Some ns ->
  let w' := snd (resume_submit (JS.Throw error) w) in
  let w2 := snd (resume_submit (JS.Normal tt) w) in
  fst (resume_submit (JS.Throw error) w) = JS.Normal tt /\
  notifications w' = Some (ns ++ [failure_notification]) /\
  controls w' = controls w /\
  errorTexts w' = errorTexts w /\
  submitBtn w'
    = Some {| innerHTML := failed_html; disabled := false;
              ariaBusy := Some "false"; background := "var(--secondary)" |} /\
  timers w' = timers w ++ [ (3000, DismissTask failure_notification);
                            (2000, RestoreButtonTask originalText) ] /\
  submitBtn (snd (run_task (RestoreButtonTask originalText) w'))
    = Some {| innerHTML := originalText; disabled := false;
              ariaBusy := Some "false"; background := "" |} /\
  (exists rest, notifications w2 = Some (ns ++ success_notification :: rest)) /\
  (forall i c, controls w2 !! i = Some c -> value c = defaultValue c).
Proof.
  intros Ha Hb Hn. cbv zeta.
  destruct w as [cs ord ers b0 n0 fo dp aw co ti]. cbn in Ha, Hb, Hn. subst aw b0 n0.
  split; [reflexivity |]. split; [reflexivity |]. split; [reflexivity |].
  split; [reflexivity |]. split; [reflexivity |].
  split; [cbn; rewrite <- app_assoc; reflexivity |]. split; [reflexivity |].
  (* the fulfilled path *)
  set (w3 := {| controls :=
                  (fun c => {| value := defaultValue c; defaultValue := defaultValue c;
                               groupInvalid := groupInvalid c;
                               ariaInvalid := ariaInvalid c |}) <$> cs;
                documentOrder := ord; errorTexts := ers;
                submitBtn := Some {| innerHTML := sent_html; disabled := disabled btn;
                                     ariaBusy := ariaBusy btn;
                                     background := "var(--gradient-secondary)" |};
                notifications := Some (ns ++ [success_notification]);
                focused := fo; defaultPrevented := dp; awaiting := None;
                console := co;
                timers := ti ++ [(3000, DismissTask success_notification)] |}).
  assert (E : resume_submit (JS.Normal tt)
                {| controls := cs; documentOrder := ord; errorTexts := ers;
                   submitBtn := Some btn; notifications := Some ns; focused := fo;
                   defaultPrevented := dp; awaiting := Some originalText;
                   console := co; timers := ti |}
              = (let r := match JS.for_each reset_validation inputs w3 with
                          | (JS.Normal tt, w1) => (JS.Normal tt, w1)
                          | (JS.Throw e, w1) => submit_catch e w1
                          end in
                 match submit_finally originalText (snd r) with
                 | (JS.Normal tt, w2) => (fst r, w2)
                 | (JS.Throw e, w2) => (JS.Throw e, w2)
                 end)) by reflexivity.
  rewrite E. clear E. cbv zeta.
  pose proof (for_each_reset_values inputs w3) as (Hn3 & Hb3 & Hc3).
  assert (Hvals : forall w4,
            (forall i c', controls w4 !! i = Some c' ->
               exists c, controls w3 !! i = Some c /\
                         value c' = value c /\ defaultValue c' = defaultValue c) ->
            forall i c, controls w4 !! i = Some c -> value c = defaultValue c).
  { intros w4 H4 i c Hl. destruct (H4 i c Hl) as (c0 & H0 & Hv & Hd).
    cbn in H0. rewrite lookup_fmap in H0.
    destruct (cs !! i) as [c1 |]; [| discriminate].
    injection H0 as <-. cbn in Hv, Hd. congruence. }
  destruct (JS.for_each reset_validation inputs w3) as [[[] | e] w4];
    cbn [snd] in Hn3, Hb3, Hc3; specialize (Hvals w4 Hc3);
    destruct w4 as [cs4 ord4 ers4 b4 n4 fo4 dp4 aw4 co4 ti4];
    cbn in Hn3, Hb3, Hvals; subst b4 n4; cbn.
  - split; [exists []; reflexivity | exact Hvals].
  - split; [exists [failure_notification]; rewrite <- app_assoc; reflexivity
           | exact Hvals].
Qed.

(** C9 on the sample form, suspended after a valid submit. *)
Lemma failed_submission_keeps_form_witness :
  awaiting sample_pending = Some "Send Message" /\
  notifications sample_pending = Some [] /\
  notifications (snd (resume_submit (JS.Throw (JS.Rejected "network")) sample_pending))
    = Some [failure_notification] /\
  controls (snd (resume_submit (JS.Throw (JS.Rejected "network")) sample_pending))
    = controls sample_pending.
Proof.
  assert (Ha : awaiting sample_pending = Some "Send Message") by (vm_compute; reflexivity).
  assert (Hb : submitBtn sample_pending
               = Some {| innerHTML := sending_html; disabled := true;
                         ariaBusy := Some "true"; background := "" |})
    by (vm_compute; reflexivity).
  assert (Hn : notifications sample_pending = Some []) by (vm_compute; reflexivity).
  destruct (failed_submission_keeps_form sample_pending (JS.Rejected "network")
              _ _ _ Ha Hb Hn) as (_ & H1 & H2 & _).
  repeat split; assumption.
Defined.

(** C4 on the sample form: the email is not an address and the message is
    empty, so the email field gets the focus. *)
Lemma invalid_submit_is_blocked_witness :
  form_ready sample_form = true /\
  existsb (field_fails sample_form) (id <$> inputs) = true /\
  exists w',
    on_submit sample_form = (JS.Normal tt, w') /\
    defaultPrevented w' = true /\
    notifications w' = Some [generic_error] /\
    focused w' = Some "contactEmail".
Proof.
  assert (H1 : form_ready sample_form = true) by (vm_compute; reflexivity).
  assert (H2 : existsb (field_fails sample_form) (id <$> inputs) = true)
    by (vm_compute; reflexivity).
  split; [exact H1 |]. split; [exact H2 |].
  destruct (invalid_submit_is_blocked sample_form H1 H2)
    as (w' & ns & i & Hn & E & Hd & _ & _ & _ & Hn' & Hfind & Hf).
  exists w'. split; [exact E |]. split; [exact Hd |].
  assert (ns = []) by (vm_compute in Hn; congruence). subst ns.
  split; [exact Hn' |].
  assert (i = "contactEmail") by (vm_compute in Hfind; congruence). subst i.
  exact Hf.
Defined.

(** *** White space around and inside the values *)












(** *** What an accepted address looks like *)

(** An accepted email value, once trimmed, holds exactly one [@], no white
    space, and at least five code units. *)
Theorem accepted_email_has_one_at (s : JS.jsstring) :
  field_valid "contactEmail" s = true ->
  count_occ N.eq_dec (JS.trim s) 64%N = 1 /\
  Forall (fun c => JS.is_white_space c = false) (JS.trim s) /\
  5 <= length (JS.trim s).
Proof.
  intros H.
  change (field_valid "contactEmail" s) with (Regex.test email_pattern (JS.trim s)) in H.
  apply email_test_shape in H as (l & d & t & -> & [Hl1 Hl] & [Hd1 Hd] & [Ht1 Ht]).
  assert (Hpart : forall p : JS.jsstring,
            Forall (fun c => email_char c = true) p ->
            count_occ N.eq_dec p 64%N = 0 /\
            Forall (fun c => JS.is_white_space c = false) p).
  { induction 1 as [| c p Hc _ [IH1 IH2]]; [split; [reflexivity | constructor] |].
    unfold email_char in Hc. apply andb_true_iff in Hc as [Hw Ha].
    apply negb_true_iff in Hw, Ha. apply N.eqb_neq in Ha.
    split; [| constructor; assumption].
    cbn. destruct (N.eq_dec c 64%N); [contradiction | exact IH1]. }
  destruct (Hpart l Hl) as [Cl Wl], (Hpart d Hd) as [Cd Wd], (Hpart t Ht) as [Ct Wt].
  split; [| split].
  - rewrite !count_occ_app, Cl, Cd, Ct. reflexivity.
  - repeat (apply Forall_app; split); try assumption; repeat constructor.
  - rewrite !length_app. cbn.
    destruct l, d, t; cbn; try contradiction; lia.
Qed.

Lemma accepted_email_has_one_at_witness :
  field_valid "contactEmail" (JS.lit " ada@example.org ") = true /\
  count_occ N.eq_dec (JS.trim (JS.lit " ada@example.org ")) 64%N = 1.
Proof.
  assert (H : field_valid "contactEmail" (JS.lit " ada@example.org ") = true)
    by (vm_compute; reflexivity).
  split; [exact H |].
  exact (proj1 (accepted_email_has_one_at _ H)).
Defined.

(** *** Validation as the user types *)

(** The [input] and [blur] listeners: on a page with the field's markup the
    listener completes; afterwards the field's group is marked invalid, its
    [aria-invalid] is "true" and its error element shows the entry's message
    exactly when the predicate fails on the trimmed value (otherwise the
    message is empty); the values, the other controls and the other error
    elements are untouched. Judging the same value again changes nothing. *)
Theorem live_validation_reflects_value (item : InputItem) (w : World) :
  item ∈ inputs ->
  item_ready w item = true ->
  exists c w',
    controls w !! id item = Some c /\
    on_input item w = (JS.Normal tt, w') /\
    controls w' !! id item
      = Some {| value := value c; defaultValue := defaultValue c;
                groupInvalid := Some (field_fails w (id item));
                ariaInvalid := Some (if field_fails w (id item) then "true" else "false") |} /\
    errorTexts w' !! errorId item
      = Some (if field_fails w (id item) then msg item else "") /\
    (forall i, i <> id item -> controls w' !! i = controls w !! i) /\
    (forall e, e <> errorId item -> errorTexts w' !! e = errorTexts w !! e) /\
    notifications w' = notifications w /\ focused w' = focused w /\
    on_input item w' = (JS.Normal tt, w').
Proof.
  intros Hin Hr.
  destruct (validateInput_ready item w Hr) as (c & Hc & E).
  destruct (validated_facts item w c Hin Hc) as (Hv & _ & _ & Hn & Hf & _ & _ & _ & _ & _ & Hready).
  exists c, (validated item w). split; [exact Hc |].
  split; [unfold on_input, JS.bind; rewrite E; reflexivity |].
  assert (Hctl : controls (validated item w) !! id item = Some (judged item c)).
  { unfold validated. rewrite Hc. destruct w as [cs ord ers btn ns fo dp aw co ti].
    cbn. apply lookup_insert_eq. }
  split.
  { rewrite Hctl. unfold judged. cbv zeta. rewrite Hv.
    destruct (field_fails w (id item)); reflexivity. }
  split.
  { unfold validated. rewrite Hc, Hv. destruct w as [cs ord ers btn ns fo dp aw co ti].
    cbn. rewrite lookup_insert_eq.
    destruct (field_fails _ (id item)); reflexivity. }
  split.
  { intros i Hi. unfold validated. rewrite Hc.
    destruct w as [cs ord ers btn ns fo dp aw co ti]. cbn.
    apply lookup_insert_ne. congruence. }
  split.
  { intros e He. unfold validated. rewrite Hc.
    destruct w as [cs ord ers btn ns fo dp aw co ti]. cbn.
    apply lookup_insert_ne. congruence. }
  split; [exact Hn |]. split; [exact Hf |].
  (* judging again *)
  destruct (validateInput_ready item (validated item w) (Hready item Hr))
    as (c' & Hc' & E').
  unfold on_input, JS.bind. rewrite E'. f_equal.
  rewrite Hctl in Hc'. injection Hc' as <-.
  unfold validated at 1. rewrite Hctl.
  unfold validated. rewrite Hc.
  destruct w as [cs ord ers btn ns fo dp aw co ti]. cbn.
  unfold set_controls, set_errorTexts. cbn.
  rewrite !insert_insert_eq. reflexivity.
Qed.

Lemma live_validation_reflects_value_witness :
  let item := {| id := "contactEmail"; errorId := "emailError";
                 validate := Regex.test email_pattern;
                 msg := "Please enter a valid email address." |} in
  item ∈ inputs /\
  item_ready sample_form item = true /\
  exists w',
    on_input item sample_form = (JS.Normal tt, w') /\
    errorTexts w' !! "emailError" = Some "Please enter a valid email address.".
Proof.
  cbv zeta.
  set (item := {| id := "contactEmail"; errorId := "emailError";
                  validate := Regex.test email_pattern;
                  msg := "Please enter a valid email address." |}).
  assert (H1 : item ∈ inputs).
  { unfold inputs. apply elem_of_cons. right. apply elem_of_cons. left. reflexivity. }
  assert (H2 : item_ready sample_form item = true) by (vm_compute; reflexivity).
  split; [exact H1 |]. split; [exact H2 |].
  destruct (live_validation_reflects_value item sample_form H1 H2)
    as (c & w' & _ & E & _ & He & _).
  exists w'. split; [exact E |].
  assert (Hf : field_fails sample_form (id item) = true) by (vm_compute; reflexivity).
  rewrite Hf in He. exact He.
Defined.

(** *** A valid submit, from the click to the restored button *)

(** The validation state of [it] is clear: group not invalid,
    [aria-invalid="false"], empty error text. *)
Definition cleared (it : InputItem) (w : World) : Prop :=
  exists c, controls w !! id it = Some c /\
            groupInvalid c = Some false /\ ariaInvalid c = Some "false" /\
            errorTexts w !! errorId it = Some "".

Lemma reset_validation_ready (it : InputItem) (w : World) :
  item_ready w it = true ->
  exists w',
    reset_validation it w = (JS.Normal tt, w') /\
    cleared it w' /\
    (forall it', item_ready w it' = true -> item_ready w' it' = true) /\
    (forall it', cleared it' w -> cleared it' w') /\
    timers w' = timers w /\ awaiting w' = awaiting w /\ focused w' = focused w.
Proof.
  intros Hr. destruct (item_ready_spec w it Hr) as (_ & c & g & e & Hc & Hg & He).
  unfold reset_validation, JS.bind, JS.get, JS.modify, JS.throw.
  rewrite Hc, Hg. cbn [errorTexts set_controls]. rewrite He.
  destruct w as [cs ord ers btn ns fo dp aw co ti]. cbn in *.
  eexists. split; [reflexivity |]. cbn.
  split.
  { eexists. cbn. rewrite !lookup_insert_eq. repeat split. }
  split.
  { intros it'. unfold item_ready. cbn. rewrite !andb_true_iff.
    intros [[H1 H2] H3]. repeat split; [exact H1 | |].
    - destruct (decide (id it' = id it)) as [E | Hne].
      + rewrite E, lookup_insert_eq. reflexivity.
      + rewrite lookup_insert_ne by congruence.
        rewrite lookup_insert_ne by congruence. exact H2.
    - apply bool_decide_eq_true. apply bool_decide_eq_true in H3.
      destruct (decide (errorId it' = errorId it)) as [E | Hne].
      + rewrite E, lookup_insert_eq. eauto.
      + rewrite lookup_insert_ne by congruence. exact H3. }
  split; [| auto].
  intros it' (c' & Hc' & Hg' & Ha' & He'). cbn in *. unfold cleared. cbn.
  destruct (decide (id it' = id it)) as [E | Hne].
  - eexists. rewrite E, lookup_insert_eq. split; [reflexivity |]. cbn.
    split; [reflexivity |]. split; [reflexivity |].
    destruct (decide (errorId it' = errorId it)) as [E2 | Hne2].
    + rewrite E2. apply lookup_insert_eq.
    + rewrite lookup_insert_ne by congruence. exact He'.
  - exists c'. rewrite !lookup_insert_ne by congruence.
    split; [exact Hc' |]. split; [exact Hg' |]. split; [exact Ha' |].
    destruct (decide (errorId it' = errorId it)) as [E2 | Hne2].
    + rewrite E2. apply lookup_insert_eq.
    + rewrite lookup_insert_ne by congruence. exact He'.
Qed.

Lemma for_each_reset_ready (items : list InputItem) :
  forall w : World,
    (forall it, it ∈ items -> item_ready w it = true) ->
    exists w',
      JS.for_each reset_validation items w = (JS.Normal tt, w') /\
      (forall it, it ∈ items -> cleared it w') /\
      (forall it, cleared it w -> cleared it w') /\
      timers w' = timers w /\ awaiting w' = awaiting w /\ focused w' = focused w.
Proof.
  induction items as [| it rest IH]; intros w Hall.
  - exists w. split; [reflexivity |]. split; [| auto].
    intros it Hit. apply elem_of_nil in Hit. contradiction.
  - destruct (reset_validation_ready it w) as (w1 & E & Hcl & Hready & Hkeep & Ht & Ha & Hf).
    { apply Hall. apply elem_of_cons. auto. }
    destruct (IH w1) as (w' & E' & Hcl' & Hkeep' & Ht' & Ha' & Hf').
    { intros it' Hit'. apply Hready, Hall. apply elem_of_cons. auto. }
    exists w'. cbn [JS.for_each]. unfold JS.bind. rewrite E, E'.
    split; [reflexivity |]. split.
    { intros it' Hit'. apply elem_of_cons in Hit' as [-> | Hit'].
      - apply Hkeep'. exact Hcl.
      - apply Hcl'. exact Hit'. }
    split; [intros it' H; apply Hkeep', Hkeep, H |].
    repeat split; congruence.
Qed.

Lemma validate_all_keeps_ready (items : list InputItem) :
  forall (w : World) (b : bool),
    (forall it, it ∈ items -> it ∈ inputs /\ item_ready w it = true) ->
    forall it', item_ready w it' = true ->
                item_ready (snd (validate_all items b w)) it' = true.
Proof.
  induction items as [| item rest IH]; intros w b Hall it' Hr'; [exact Hr' |].
  destruct (Hall item) as [Hin Hr]; [apply elem_of_cons; auto |].
  destruct (validateInput_ready item w Hr) as (c & Hc & E).
  destruct (validated_facts item w c Hin Hc)
    as (_ & _ & _ & _ & _ & _ & _ & _ & _ & _ & Hready).
  cbn [validate_all]. unfold JS.bind. rewrite E.
  apply IH; [| apply Hready; exact Hr'].
  intros it Hit. destruct (Hall it) as [H1 H2]; [apply elem_of_cons; auto |].
  split; [exact H1 | apply Hready; exact H2].
Qed.

(** A submit with the markup present and every predicate passing: the
    handler prevents the default, leaves the notifications alone, puts the
    button into its busy state and suspends on the simulated call. When that
    call's timer fires, exactly one notification is added, the success one;
    every control is back at its default value with its validation state
    cleared; the button shows the success text, enabled, and the timers of
    the toast and of the button's restoration are pending. *)
Theorem valid_submit_sends_once (w : World) (btn : SubmitButton) (ns : list Notification) :
  form_ready w = true ->
  existsb (field_fails w) (id <$> inputs) = false ->
  submitBtn w = Some btn ->
  notifications w = Some ns ->
  exists w1 w2,
    on_submit w = (JS.Normal tt, w1) /\
    defaultPrevented w1 = true /\
    notifications w1 = Some ns /\
    submitBtn w1 = Some {| innerHTML := sending_html; disabled := true;
                           ariaBusy := Some "true"; background := background btn |} /\
    awaiting w1 = Some (innerHTML btn) /\
    timers w1 = timers w ++ [(2000, SubmissionTask)] /\
    run_task SubmissionTask w1 = (JS.Normal tt, w2) /\
    notifications w2 = Some (ns ++ [success_notification]) /\
    (forall i c, controls w2 !! i = Some c -> value c = defaultValue c) /\
    (forall it, it ∈ inputs -> cleared it w2) /\
    submitBtn w2 = Some {| innerHTML := sent_html; disabled := false;
                           ariaBusy := Some "false";
                           background := "var(--gradient-secondary)" |} /\
    awaiting w2 = None /\
    timers w2 = timers w1 ++ [ (3000, DismissTask success_notification);
                               (2000, RestoreButtonTask (innerHTML btn)) ].
Proof.
  unfold form_ready. rewrite !andb_true_iff. intros [[HR _] _] Hok Hb Hn.
  rewrite forallb_forall in HR.
  assert (HR' : forall it, it ∈ inputs ->
                  it ∈ inputs /\ item_ready (set_defaultPrevented true w) it = true).
  { intros it Hit. split; [exact Hit |].
    apply list_elem_of_In in Hit. exact (HR it Hit). }
  destruct (validate_all_ready inputs (set_defaultPrevented true w) true HR')
    as (w0 & E & Ho & Hb0 & Hn0 & Hf0 & Hd0 & Ha0 & Ht0 & _ & _).
  change (field_fails (set_defaultPrevented true w)) with (field_fails w) in E.
  cbn [documentOrder submitBtn notifications focused defaultPrevented awaiting
       timers set_defaultPrevented] in Ho, Hb0, Hn0, Hf0, Hd0, Ha0, Ht0.
  assert (Hall : forallb (fun it => negb (field_fails w (id it))) inputs = true).
  { apply forallb_forall. intros it Hit. apply negb_true_iff.
    destruct (field_fails w (id it)) eqn:Ef; [| reflexivity].
    exfalso. apply not_true_iff_false in Hok. apply Hok.
    apply existsb_exists. exists (id it). split; [| exact Ef].
    apply in_map. exact Hit. }
  rewrite Hall in E. cbn [andb] in E.
  assert (Hready0 : forall it, it ∈ inputs -> item_ready w0 it = true).
  { intros it Hit.
    pose proof (validate_all_keeps_ready inputs (set_defaultPrevented true w) true HR'
                  it (proj2 (HR' it Hit))) as H.
    rewrite E in H. exact H. }
  rewrite Hb in Hb0. rewrite Hn in Hn0.
  set (w1 := set_awaiting (Some (innerHTML btn))
               (add_timer 2000 SubmissionTask
                  (set_submitBtn (Some {| innerHTML := sending_html; disabled := true;
                                          ariaBusy := Some "true";
                                          background := background btn |}) w0))).
  assert (E1 : on_submit w = (JS.Normal tt, w1)).
  { unfold on_submit, JS.bind at 1 2, JS.modify at 1. rewrite E.
    unfold JS.bind at 1, JS.get at 1. rewrite Hb0. reflexivity. }
  set (w3 := {| controls :=
                  (fun c => {| value := defaultValue c; defaultValue := defaultValue c;
                               groupInvalid := groupInvalid c;
                               ariaInvalid := ariaInvalid c |}) <$> controls w0;
                documentOrder := documentOrder w0; errorTexts := errorTexts w0;
                submitBtn := Some {| innerHTML := sent_html; disabled := true;
                                     ariaBusy := Some "true";
                                     background := "var(--gradient-secondary)" |};
                notifications := Some (ns ++ [success_notification]);
                focused := focused w0; defaultPrevented := defaultPrevented w0;
                awaiting := None; console := console w0;
                timers := (timers w0 ++ [(2000, SubmissionTask)])
                          ++ [(3000, DismissTask success_notification)] |}).
  destruct (for_each_reset_ready inputs w3) as (w4 & E4 & Hcl & _ & Ht4 & Ha4 & _).
  { intros it Hit. specialize (Hready0 it Hit).
    unfold item_ready in *. subst w3. cbn. rewrite lookup_fmap.
    destruct (controls w0 !! id it); cbn in *; auto. }
  destruct (for_each_reset_values inputs w3) as (Hn4 & Hb4 & Hv4).
  rewrite E4 in Hn4, Hb4, Hv4. cbn [snd] in Hn4, Hb4, Hv4.
  assert (E2 : run_task SubmissionTask w1
               = (let r := match JS.for_each reset_validation inputs w3 with
                           | (JS.Normal tt, wa) => (JS.Normal tt, wa)
                           | (JS.Throw e, wa) => submit_catch e wa
                           end in
                  match submit_finally (innerHTML btn) (snd r) with
                  | (JS.Normal tt, wb) => (fst r, wb)
                  | (JS.Throw e, wb) => (JS.Throw e, wb)
                  end)).
  { subst w1 w3. destruct w0 as [cs ord ers b0 n0 fo dp aw co ti].
    cbn in Hb0, Hn0. subst b0 n0. reflexivity. }
  rewrite E4 in E2. cbv zeta in E2. cbn [snd fst] in E2.
  unfold submit_finally, with_button, JS.bind, JS.get, JS.modify in E2.
  rewrite Hb4 in E2. cbn [submitBtn w3] in E2.
  eexists w1, _. split; [exact E1 |].
  split; [subst w1; cbn; exact Hd0 |].
  split; [subst w1; cbn; exact Hn0 |].
  split; [reflexivity |]. split; [reflexivity |].
  split; [subst w1; cbn; rewrite Ht0; reflexivity |].
  split; [exact E2 |].
  cbn [notifications controls submitBtn awaiting timers set_submitBtn add_timer].
  split; [rewrite Hn4; reflexivity |].
  split.
  { intros i c Hc. destruct (Hv4 i c Hc) as (c0 & H0 & Hv & Hd).
    subst w3. cbn in H0. rewrite lookup_fmap in H0.
    destruct (controls w0 !! i) as [c1 |]; [| discriminate].
    injection H0 as <-. cbn in Hv, Hd. congruence. }
  split.
  { intros it Hit. destruct (Hcl it Hit) as (c & H1 & H2 & H3 & H4).
    exists c. cbn. auto. }
  split; [reflexivity |]. split; [exact Ha4 |].
  rewrite Ht4. subst w3 w1. cbn. rewrite <- !app_assoc. reflexivity.
Qed.

Lemma valid_submit_sends_once_witness :
  let w := set_controls (fun m =>
             <["contactEmail" := holding "ada@example.org"]>
               (<["contactMessage" := holding "Hi there"]> m)) sample_form in
  form_ready w = true /\
  existsb (field_fails w) (id <$> inputs) = false /\
  exists w1 w2,
    on_submit w = (JS.Normal tt, w1) /\
    run_task SubmissionTask w1 = (JS.Normal tt, w2) /\
    notifications w2 = Some [success_notification].
Proof.
  cbv zeta.
  set (w := set_controls _ sample_form).
  assert (H1 : form_ready w = true) by (vm_compute; reflexivity).
  assert (H2 : existsb (field_fails w) (id <$> inputs) = false)
    by (vm_compute; reflexivity).
  split; [exact H1 |]. split; [exact H2 |].
  destruct (valid_submit_sends_once w _ [] H1 H2 eq_refl eq_refl)
    as (w1 & w2 & E1 & _ & _ & _ & _ & _ & E2 & Hn & _).
  exists w1, w2. auto.
Defined.

End ContactForm.
